(** * RecipeFlow: the chunked upload session service

    A shallow embedding of the upload session service,
    [services/uploadSession.ts] (session creation, chunk storage,
    missing-chunk computation, reassembly and final verification, cleanup
    sweeps), of the hash helpers of [utils/hash.ts], and of the request
    validation and the status report of the upload routes, together with
    the properties of the upload protocol.

    Conventions of the embedding:
    - a [Buffer] is a [list byte]; a JS string is a [string] (the hash
      strings the service handles are ASCII); a JS number holding an
      integer column ([totalChunks], a chunk index) and a [Date] (as
      milliseconds since the epoch) are [Z]; where the digits a number
      prints or the range of its column matter, the property says which
      integers it is about ([isSafeInteger], [fitsInt32]);
    - the [upload_sessions] table is a [gmap] from the session id to the
      row; the upload directory is a [gmap] from a session directory to the
      files it holds (a directory that is not a key does not exist): the
      directories of the sessions lie side by side in the sessions
      directory, as they do for ids that are plain names ([isPlainName]),
      which the ids the ORM generates for the rows are; [join] is modelled
      after Node's, and [getSessionDir_join] relates the two;
    - [async] functions are state-passing functions on a [World] returning
      a [Result]; a thrown exception is [Err]. *)

From Stdlib Require Import ZArith Lia Bool.
From Stdlib Require Import Strings.String Strings.Ascii Strings.Byte.
From Stdlib Require Import DecimalString DecimalZ.
From stdpp Require Import base list gmap strings sorting.

Local Open Scope Z_scope.

(** ** SHA-256

    [hashBuffer] calls Node's [createHash("sha256")]; the primitive is
    given here after FIPS 180-4 on 32-bit words held in [Z], so that the
    hashes of concrete buffers can be computed. *)
Module Sha256.

Definition mask32 : Z := 0xFFFFFFFF.

Definition add32 (a b : Z) : Z := Z.land (a + b) mask32.

Definition rotr (n x : Z) : Z :=
  Z.lor (Z.shiftr x n) (Z.land (Z.shiftl x (32 - n)) mask32).

Definition Ch (x y z : Z) : Z :=
  Z.lxor (Z.land x y) (Z.land (Z.lxor x mask32) z).

Definition Maj (x y z : Z) : Z :=
  Z.lxor (Z.lxor (Z.land x y) (Z.land x z)) (Z.land y z).

Definition bigSigma0 (x : Z) : Z :=
  Z.lxor (Z.lxor (rotr 2 x) (rotr 13 x)) (rotr 22 x).

Definition bigSigma1 (x : Z) : Z :=
  Z.lxor (Z.lxor (rotr 6 x) (rotr 11 x)) (rotr 25 x).

Definition smallSigma0 (x : Z) : Z :=
  Z.lxor (Z.lxor (rotr 7 x) (rotr 18 x)) (Z.shiftr x 3).

Definition smallSigma1 (x : Z) : Z :=
  Z.lxor (Z.lxor (rotr 17 x) (rotr 19 x)) (Z.shiftr x 10).

(** The round constants, eight to a row. *)
Definition K : list Z :=
  concat
    [ [0x428a2f98; 0x71374491; 0xb5c0fbcf; 0xe9b5dba5;
       0x3956c25b; 0x59f111f1; 0x923f82a4; 0xab1c5ed5];
      [0xd807aa98; 0x12835b01; 0x243185be; 0x550c7dc3;
       0x72be5d74; 0x80deb1fe; 0x9bdc06a7; 0xc19bf174];
      [0xe49b69c1; 0xefbe4786; 0x0fc19dc6; 0x240ca1cc;
       0x2de92c6f; 0x4a7484aa; 0x5cb0a9dc; 0x76f988da];
      [0x983e5152; 0xa831c66d; 0xb00327c8; 0xbf597fc7;
       0xc6e00bf3; 0xd5a79147; 0x06ca6351; 0x14292967];
      [0x27b70a85; 0x2e1b2138; 0x4d2c6dfc; 0x53380d13;
       0x650a7354; 0x766a0abb; 0x81c2c92e; 0x92722c85];
      [0xa2bfe8a1; 0xa81a664b; 0xc24b8b70; 0xc76c51a3;
       0xd192e819; 0xd6990624; 0xf40e3585; 0x106aa070];
      [0x19a4c116; 0x1e376c08; 0x2748774c; 0x34b0bcb5;
       0x391c0cb3; 0x4ed8aa4a; 0x5b9cca4f; 0x682e6ff3];
      [0x748f82ee; 0x78a5636f; 0x84c87814; 0x8cc70208;
       0x90befffa; 0xa4506ceb; 0xbef9a3f7; 0xc67178f2] ].

(** The eight working variables / the intermediate hash value. *)
Record state : Type := State {
  h0 : Z; h1 : Z; h2 : Z; h3 : Z; h4 : Z; h5 : Z; h6 : Z; h7 : Z
}.

Definition initial : state :=
  State 0x6a09e667 0xbb67ae85 0x3c6ef372 0xa54ff53a
        0x510e527f 0x9b05688c 0x1f83d9ab 0x5be0cd19.

(** Padding: a 1 bit, zero bits up to 56 mod 64 bytes, then the length in
    bits as a 64-bit big-endian integer. *)
Definition be_bytes (width : nat) (v : Z) : list Z :=
  map (fun i : nat => Z.land (Z.shiftr v (8 * Z.of_nat (width - 1 - i))) 0xFF)
      (seq 0 width).

Definition pad (msg : list Z) : list Z :=
  let len := Z.of_nat (length msg) in
  let zeros := Z.to_nat ((55 - len) mod 64) in
  msg ++ [0x80] ++ replicate zeros 0 ++ be_bytes 8 (8 * len).

Fixpoint words (bs : list Z) : list Z :=
  match bs with
  | a :: b :: c :: d :: rest =>
      (Z.shiftl a 24 + Z.shiftl b 16 + Z.shiftl c 8 + d) :: words rest
  | _ => []
  end.

Fixpoint blocks (fuel : nat) (ws : list Z) : list (list Z) :=
  match fuel, ws with
  | S n, _ :: _ => take 16 ws :: blocks n (drop 16 ws)
  | _, _ => []
  end.

(** The message schedule: 16 words of the block, extended to 64. *)
Fixpoint extend (n : nat) (w : list Z) : list Z :=
  match n with
  | O => w
  | S n' =>
      let t := length w in
      let at_ (k : nat) := nth (t - k) w 0 in
      extend n' (w ++ [add32 (add32 (smallSigma1 (at_ 2%nat)) (at_ 7%nat))
                             (add32 (smallSigma0 (at_ 15%nat)) (at_ 16%nat))])
  end.

Definition round (s : state) (kw : Z * Z) : state :=
  let '(k, w) := kw in
  let t1 := add32 (add32 (add32 (h7 s) (bigSigma1 (h4 s)))
                         (add32 (Ch (h4 s) (h5 s) (h6 s)) k)) w in
  let t2 := add32 (bigSigma0 (h0 s)) (Maj (h0 s) (h1 s) (h2 s)) in
  State (add32 t1 t2) (h0 s) (h1 s) (h2 s) (add32 (h3 s) t1) (h4 s) (h5 s) (h6 s).

Definition compress (s : state) (block : list Z) : state :=
  let r := fold_left round (combine K (extend 48 block)) s in
  State (add32 (h0 s) (h0 r)) (add32 (h1 s) (h1 r)) (add32 (h2 s) (h2 r))
        (add32 (h3 s) (h3 r)) (add32 (h4 s) (h4 r)) (add32 (h5 s) (h5 r))
        (add32 (h6 s) (h6 r)) (add32 (h7 s) (h7 r)).

Definition digest (msg : list byte) : state :=
  let ws := words (pad (map (fun b => Z.of_N (Byte.to_N b)) msg)) in
  fold_left compress (blocks (length ws) ws) initial.

(** [digest("hex")]: lowercase hexadecimal, eight digits per word. *)
Definition hexDigit (n : Z) : ascii :=
  match n with
  | 0 => "0" | 1 => "1" | 2 => "2" | 3 => "3" | 4 => "4" | 5 => "5"
  | 6 => "6" | 7 => "7" | 8 => "8" | 9 => "9" | 10 => "a" | 11 => "b"
  | 12 => "c" | 13 => "d" | 14 => "e" | _ => "f"
  end%char.

Definition nibble (w : Z) (i : Z) : ascii :=
  hexDigit (Z.land (Z.shiftr w (4 * i)) 15).

Definition hexWord (w : Z) (rest : string) : string :=
  String (nibble w 7) (String (nibble w 6) (String (nibble w 5)
  (String (nibble w 4) (String (nibble w 3) (String (nibble w 2)
  (String (nibble w 1) (String (nibble w 0) rest))))))).

Definition hex (s : state) : string :=
  hexWord (h0 s) (hexWord (h1 s) (hexWord (h2 s) (hexWord (h3 s)
  (hexWord (h4 s) (hexWord (h5 s) (hexWord (h6 s) (hexWord (h7 s) ""))))))).

Definition sha256hex (msg : list byte) : string := hex (digest msg).

End Sha256.

(** ** utils/hash.ts *)

(** [hashBuffer]: ["sha256:" + hexdigest]. *)
Definition hashBuffer (buffer : list byte) : string :=
  ("sha256:" ++ Sha256.sha256hex buffer)%string.

Definition charCode (c : ascii) : Z := Z.of_N (N_of_ascii c).

(** The character class [[a-f0-9]]. *)
Definition isLowerHex (c : ascii) : bool :=
  let n := charCode c in
  ((97 <=? n) && (n <=? 102)) || ((48 <=? n) && (n <=? 57)).

Fixpoint allLowerHex (s : string) : bool :=
  match s with
  | EmptyString => true
  | String c s' => isLowerHex c && allLowerHex s'
  end.

Fixpoint stripPrefix (p s : string) : option string :=
  match p, s with
  | EmptyString, _ => Some s
  | String a p', String b s' =>
      if Ascii.eqb a b then stripPrefix p' s' else None
  | String _ _, EmptyString => None
  end.

(** [isValidHash]: the regular expression [/^sha256:[a-f0-9]{64}$/]. *)
Definition isValidHash (hash : string) : bool :=
  match stripPrefix "sha256:" hash with
  | Some digits => (Nat.eqb (String.length digits) 64) && allLowerHex digits
  | None => false
  end.

(** The loop of [hashesMatch]: [result |= a.charCodeAt(i) ^ b.charCodeAt(i)]
    over the common indices. *)
Fixpoint hashesMatch_loop (a b : string) (result : Z) : Z :=
  match a, b with
  | String x a', String y b' =>
      hashesMatch_loop a' b' (Z.lor result (Z.lxor (charCode x) (charCode y)))
  | _, _ => result
  end.

Definition hashesMatch (a b : string) : bool :=
  if negb (Nat.eqb (String.length a) (String.length b)) then false
  else hashesMatch_loop a b 0 =? 0.

Definition bytes (s : string) : list byte := list_byte_of_string s.

(** ** Results, errors and the world *)

(** The exceptions the service throws.  [GenericError] is a plain
    [new Error(message)]; [FsError] is an error of [fs/promises] (a missing
    file or directory); [PrismaError] is a failed query of the ORM. *)
Inductive Error : Type :=
  | SessionNotFoundError (sessionId : string)
  | SessionExpiredError (sessionId : string)
  | ChunkHashMismatchError (expected received : string)
  | ChunksMissingError (missing : list Z)
  | FinalHashMismatchError (expected received : string)
  | GenericError (message : string)
  | FsError (code : string)
  | PrismaError (code : string).

Inductive Result (A : Type) : Type :=
  | Ok (value : A)
  | Err (error : Error).
Arguments Ok {A} value.
Arguments Err {A} error.


(** A row of [upload_sessions] ([created_at], filled by the database and
    never read by the service, is left out). *)
Record UploadSession : Type := mkSession {
  sid : string;
  modpackVersionId : string;
  userId : string;
  uploadType : string; (* "icons" | "items" *)
  totalSize : Z;
  totalChunks : Z;
  chunkSize : Z;
  finalHash : string;
  chunksReceived : list Z;
  expiresAt : Z;
  completedAt : option Z
}.

Definition with_chunksReceived (s : UploadSession) (l : list Z) : UploadSession :=
  mkSession (sid s) (modpackVersionId s) (userId s) (uploadType s) (totalSize s)
            (totalChunks s) (chunkSize s) (finalHash s) l (expiresAt s)
            (completedAt s).

Definition with_completedAt (s : UploadSession) (t : option Z) : UploadSession :=
  mkSession (sid s) (modpackVersionId s) (userId s) (uploadType s) (totalSize s)
            (totalChunks s) (chunkSize s) (finalHash s) (chunksReceived s)
            (expiresAt s) t.


Module Params.
Record CreateSessionParams : Type := mk {
  modpackVersionId : string;
  userId : string;
  type : string;
  totalSize : Z;
  totalChunks : Z;
  chunkSize : Z;
  finalHash : string
}.
End Params.

Record StoreChunkResult : Type := mkStoreChunkResult {
  sc_verified : bool;
  sc_session : UploadSession;
  sc_chunksReceived : Z;
  sc_chunksRemaining : Z
}.

(** A file path, as the directory and the name [join] puts together. *)
Record Path : Type := mkPath { dir : string; base : string }.

(** The string of a path. *)
Definition pathString (p : Path) : string := (dir p ++ "/" ++ base p)%string.

Record ReassembleResult : Type := mkReassembleResult {
  filePath : Path;
  verified : bool;
  hash : string
}.

Abbreviation Table := (gmap string UploadSession).
Abbreviation Files := (gmap string (list byte)).
Abbreviation FileSystem := (gmap string (gmap string (list byte))).

Record World : Type := mkWorld {
  db : gmap string UploadSession;
  fs : gmap string (gmap string (list byte))
}.

(** ** Constants and paths *)

Definition SESSION_EXPIRY_HOURS : Z := 1.
Definition SESSIONS_SUBDIR : string := "sessions".

(** [env.uploadDir], at its default. *)
Definition uploadDir : string := "./uploads".

(** The integers a JS number holds exactly, [Number.isSafeInteger]: up to
    [Number.MAX_SAFE_INTEGER], 2^53 - 1, in magnitude. *)
Definition MAX_SAFE_INTEGER : Z := 9007199254740991.

Definition isSafeInteger (n : Z) : bool :=
  (- MAX_SAFE_INTEGER <=? n) && (n <=? MAX_SAFE_INTEGER).

(** The values of an [INTEGER] column of [upload_sessions] ([total_size],
    [total_chunks], [chunk_size]): 32 bits, signed. *)
Definition fitsInt32 (n : Z) : bool :=
  (-2147483648 <=? n) && (n <=? 2147483647).

(** [Number.prototype.toString] on a safe integer: its decimal digits.
    (Past the safe integers a JS number prints digits of its own, and from
    1e21 on an exponent; what is proved below of a printed number is
    stated for safe integers.) *)
Definition toString (n : Z) : string := NilEmpty.string_of_int (Z.to_int n).

Fixpoint zeros (n : nat) (s : string) : string :=
  match n with
  | O => s
  | S n' => String "0" (zeros n' s)
  end.

(** [s.padStart(targetLength, "0")]. *)
Definition padStart (s : string) (targetLength : nat) : string :=
  zeros (targetLength - String.length s) s.

(** *** [join] of Node's [path] module (POSIX)

    [join] puts its non-empty arguments together with [/] between them and
    normalises the result: empty and [.] segments go, a [..] segment takes
    back the segment before it (or stays, at the start of a relative
    path), a trailing [/] is kept. *)
Fixpoint segments (path : string) : list string :=
  match path with
  | EmptyString => [EmptyString]
  | String c rest =>
      if Ascii.eqb c "/" then EmptyString :: segments rest
      else match segments rest with
           | segment :: more => String c segment :: more
           | [] => [String c EmptyString]
           end
  end.

(** One segment of [normalizeString], [res] being the segments kept so
    far, the last one first. *)
Definition resolveSegment (allowAboveRoot : bool) (res : list string)
    (segment : string) : list string :=
  if String.eqb segment "" || String.eqb segment "." then res
  else if String.eqb segment ".." then
    match res with
    | last :: before =>
        if String.eqb last ".." then ".."%string :: res else before
    | [] => if allowAboveRoot then [".."%string] else []
    end
  else segment :: res.

Definition normalizeString (path : string) (allowAboveRoot : bool) : string :=
  String.concat "/"
    (rev (fold_left (resolveSegment allowAboveRoot) (segments path) [])).

Definition startsWithSlash (path : string) : bool :=
  match path with
  | String c _ => Ascii.eqb c "/"
  | EmptyString => false
  end.

Fixpoint endsWithSlash (path : string) : bool :=
  match path with
  | EmptyString => false
  | String c EmptyString => Ascii.eqb c "/"
  | String _ rest => endsWithSlash rest
  end.

Definition normalize (path : string) : string :=
  if String.eqb path "" then "."%string
  else
    let isAbsolute := startsWithSlash path in
    let trailingSeparator := endsWithSlash path in
    let path' := normalizeString path (negb isAbsolute) in
    if String.eqb path' "" then
      if isAbsolute then "/"%string
      else if trailingSeparator then "./"%string else "."%string
    else
      let path'' := if trailingSeparator then (path' ++ "/")%string else path' in
      if isAbsolute then ("/" ++ path'')%string else path''.

Definition join (args : list string) : string :=
  match filter (fun arg => arg <> ""%string) args with
  | [] => "."%string
  | joined => normalize (String.concat "/" joined)
  end.

(** A plain name: one segment of a path, as the ids the ORM generates for
    the rows are.  It is not empty, not [.] nor [..], and has no [/]. *)
Fixpoint hasSlash (s : string) : bool :=
  match s with
  | EmptyString => false
  | String c rest => Ascii.eqb c "/" || hasSlash rest
  end.

Definition isPlainName (s : string) : bool :=
  negb (String.eqb s "") && negb (String.eqb s ".") && negb (String.eqb s "..")
  && negb (hasSlash s).

(** *** The paths of a session

    [getSessionDir]: [join(env.uploadDir, SESSIONS_SUBDIR, sessionId)] for
    a session id that is a plain name, where [join] puts the id after the
    sessions directory ([getSessionDir_join] below).  The directories of
    the sessions are then side by side in the sessions directory, none
    inside another, which is what the file store of the world holds. *)
Definition getSessionDir (sessionId : string) : string :=
  (join [uploadDir; SESSIONS_SUBDIR] ++ "/" ++ sessionId)%string.

Definition chunkName (chunkIndex : Z) : string :=
  ("chunk-" ++ padStart (toString chunkIndex) 6)%string.

Definition getChunkPath (sessionId : string) (chunkIndex : Z) : Path :=
  mkPath (getSessionDir sessionId) (chunkName chunkIndex).

Definition getCompletePath (sessionId : string) : Path :=
  mkPath (getSessionDir sessionId) "complete".

(** ** The collaborators: file system and ORM *)

(** [mkdir(d, { recursive: true })]. *)
Definition mkdir (d : string) (f : FileSystem) : FileSystem :=
  match f !! d with
  | Some _ => f
  | None => <[d := ∅]> f
  end.

(** [writeFile]: fails when the directory does not exist. *)
Definition writeFile (p : Path) (data : list byte) (f : FileSystem)
  : Result FileSystem :=
  match f !! dir p with
  | Some files => Ok (<[dir p := <[base p := data]> files]> f)
  | None => Err (FsError "ENOENT")
  end.

Definition readFile (p : Path) (f : FileSystem) : Result (list byte) :=
  match f !! dir p with
  | Some files =>
      match files !! base p with
      | Some data => Ok data
      | None => Err (FsError "ENOENT")
      end
  | None => Err (FsError "ENOENT")
  end.

(** [rm(d, { recursive: true, force: true })]. *)
Definition rm (d : string) (f : FileSystem) : FileSystem := delete d f.

(** [prisma.uploadSession.create]: the id is the one the ORM generates,
    and the row is stored as given.  (The database holds the three numbers
    of a row in [INTEGER] columns and refuses a row whose numbers do not
    fit, [fitsInt32]; the amended C7 is stated for numbers that fit.) *)
Definition prisma_create (row : UploadSession) (t : Table) : Result Table :=
  match t !! sid row with
  | Some _ => Err (PrismaError "P2002")
  | None => Ok (<[sid row := row]> t)
  end.

(** [prisma.uploadSession.update({ where: { id }, data })]. *)
Definition prisma_update (i : string) (f : UploadSession -> UploadSession)
    (t : Table) : Result (UploadSession * Table) :=
  match t !! i with
  | Some s => Ok (f s, <[i := f s]> t)
  | None => Err (PrismaError "P2025")
  end.

(** ** A state and exception monad over the world *)

Definition M (A : Type) : Type := World -> Result A * World.

Definition ret {A} (a : A) : M A := fun w => (Ok a, w).
Definition throw {A} (e : Error) : M A := fun w => (Err e, w).
Definition bind {A B} (m : M A) (k : A -> M B) : M B :=
  fun w =>
    match m w with
    | (Ok a, w') => k a w'
    | (Err e, w') => (Err e, w')
    end.

Notation "'let*' x := m 'in' k" := (bind m (fun x => k))
  (at level 10, x name, m at level 100, k at level 200).
Notation "'do' m 'in' k" := (bind m (fun _ => k))
  (at level 10, m at level 100, k at level 200).

Definition findUnique (i : string) : M (option UploadSession) :=
  fun w => (Ok (db w !! i), w).

Definition create (row : UploadSession) : M UploadSession :=
  fun w =>
    match prisma_create row (db w) with
    | Ok t => (Ok row, mkWorld t (fs w))
    | Err e => (Err e, w)
    end.

Definition update (i : string) (f : UploadSession -> UploadSession)
  : M UploadSession :=
  fun w =>
    match prisma_update i f (db w) with
    | Ok (s, t) => (Ok s, mkWorld t (fs w))
    | Err e => (Err e, w)
    end.

Definition fs_mkdir (d : string) : M unit :=
  fun w => (Ok tt, mkWorld (db w) (mkdir d (fs w))).

Definition fs_writeFile (p : Path) (data : list byte) : M unit :=
  fun w =>
    match writeFile p data (fs w) with
    | Ok f => (Ok tt, mkWorld (db w) f)
    | Err e => (Err e, w)
    end.

Definition fs_readFile (p : Path) : M (list byte) :=
  fun w =>
    match readFile p (fs w) with
    | Ok data => (Ok data, w)
    | Err e => (Err e, w)
    end.

Definition fs_rm (d : string) : M unit :=
  fun w => (Ok tt, mkWorld (db w) (rm d (fs w))).

(** ** services/uploadSession.ts *)

(** A JS [Set] of numbers, as the list of its elements in insertion
    order. *)
Definition setHas (s : list Z) (x : Z) : bool := bool_decide (x ∈ s).

Definition setAdd (s : list Z) (x : Z) : list Z :=
  if setHas s x then s else s ++ [x].

Definition newSet (l : list Z) : list Z := fold_left setAdd l [].

(** [array.sort((a, b) => a - b)]. *)
Definition sortAscending (l : list Z) : list Z := merge_sort Z.le l.

Definition createUploadSession (newId : string) (now : Z)
    (params : Params.CreateSessionParams) : M UploadSession :=
  let expiresAt := now + SESSION_EXPIRY_HOURS * 60 * 60 * 1000 in
  if negb (isValidHash (Params.finalHash params)) then
    throw (GenericError ("Invalid hash format: " ++ Params.finalHash params)%string)
  else
    let* session :=
      create (mkSession newId
                (Params.modpackVersionId params) (Params.userId params)
                (Params.type params) (Params.totalSize params)
                (Params.totalChunks params) (Params.chunkSize params)
                (Params.finalHash params) [] expiresAt None) in
    do fs_mkdir (getSessionDir (sid session)) in
    ret session.

(** [storeChunk] runs in three parts, separated by its [await]s: the
    lookup of the session, the checks followed by the write of the chunk
    file, and the update of the row. *)
Definition storeChunk_find (sessionId : string) : M UploadSession :=
  let* session := findUnique sessionId in
  match session with
  | None => throw (SessionNotFoundError sessionId)
  | Some session => ret session
  end.

Definition storeChunk_write (session : UploadSession) (sessionId : string)
    (chunkIndex : Z) (data : list byte) (expectedHash : string) (now : Z)
  : M unit :=
  if expiresAt session <? now then throw (SessionExpiredError sessionId)
  else if (chunkIndex <? 0) || (chunkIndex >=? totalChunks session) then
    throw (GenericError ("Invalid chunk index: " ++ toString chunkIndex
                         ++ " (expected 0-"
                         ++ toString (totalChunks session - 1) ++ ")")%string)
  else
    let actualHash := hashBuffer data in
    if negb (hashesMatch actualHash expectedHash) then
      throw (ChunkHashMismatchError expectedHash actualHash)
    else fs_writeFile (getChunkPath sessionId chunkIndex) data.

Definition storeChunk_update (session : UploadSession) (sessionId : string)
    (chunkIndex : Z) : M StoreChunkResult :=
  let currentChunks := setAdd (newSet (chunksReceived session)) chunkIndex in
  let updatedChunks := sortAscending currentChunks in
  let* updatedSession :=
    update sessionId (fun s => with_chunksReceived s updatedChunks) in
  ret (mkStoreChunkResult true updatedSession
         (Z.of_nat (length updatedChunks))
         (totalChunks session - Z.of_nat (length updatedChunks))).

Definition storeChunk (sessionId : string) (chunkIndex : Z) (data : list byte)
    (expectedHash : string) (now : Z) : M StoreChunkResult :=
  let* session := storeChunk_find sessionId in
  do storeChunk_write session sessionId chunkIndex data expectedHash now in
  storeChunk_update session sessionId chunkIndex.

(** The row [storeChunk] writes back: the row it read, with the new index
    added to the received chunks. *)
Definition storeChunk_session (session : UploadSession) (chunkIndex : Z)
  : UploadSession :=
  with_chunksReceived session
    (sortAscending (setAdd (newSet (chunksReceived session)) chunkIndex)).

Definition getSessionStatus (sessionId : string) : M (option UploadSession) :=
  findUnique sessionId.

(** The loop of [getMissingChunks], [n] iterations from index [i]. *)
Fixpoint getMissingChunks_loop (receivedSet : list Z) (i : Z) (n : nat)
    (missing : list Z) : list Z :=
  match n with
  | O => missing
  | S n' =>
      getMissingChunks_loop receivedSet (i + 1) n'
        (if negb (setHas receivedSet i) then missing ++ [i] else missing)
  end.

Definition getMissingChunks (session : UploadSession) : list Z :=
  let receivedSet := newSet (chunksReceived session) in
  getMissingChunks_loop receivedSet 0 (Z.to_nat (totalChunks session)) [].

(** The read loop of [reassembleAndVerify], [n] iterations from index
    [i]. *)
Fixpoint readChunks (sessionId : string) (i : Z) (n : nat)
    (chunks : list (list byte)) : M (list (list byte)) :=
  match n with
  | O => ret chunks
  | S n' =>
      let* chunkData := fs_readFile (getChunkPath sessionId i) in
      readChunks sessionId (i + 1) n' (chunks ++ [chunkData])
  end.

Definition reassembleAndVerify (sessionId : string) (now : Z)
  : M ReassembleResult :=
  let* session := findUnique sessionId in
  match session with
  | None => throw (SessionNotFoundError sessionId)
  | Some session =>
      let missing := getMissingChunks session in
      if (0 <? length missing)%nat then throw (ChunksMissingError missing)
      else
        let* chunks :=
          readChunks sessionId 0 (Z.to_nat (totalChunks session)) [] in
        let completeData := concat chunks in
        let outputPath := getCompletePath sessionId in
        do fs_writeFile outputPath completeData in
        let actualHash := hashBuffer completeData in
        let verified := hashesMatch actualHash (finalHash session) in
        if negb verified then
          throw (FinalHashMismatchError (finalHash session) actualHash)
        else
          do update sessionId (fun s => with_completedAt s (Some now)) in
          ret (mkReassembleResult outputPath true actualHash)
  end.

Definition getCompletedFilePath (sessionId : string) : Path :=
  getCompletePath sessionId.

Definition cleanupSessionFiles (sessionId : string) : M unit :=
  fs_rm (getSessionDir sessionId).

(** [findMany({ where, select: { id: true } })] and [deleteMany({ where })]. *)
Definition selectWhere (P : UploadSession -> bool) (t : Table) : Table :=
  filter (fun kv => Is_true (P kv.2)) t.

Definition findMany (P : UploadSession -> bool) : M (list string) :=
  fun w => (Ok (map (fun kv => sid kv.2) (map_to_list (selectWhere P (db w)))), w).

Definition deleteMany (P : UploadSession -> bool) : M Z :=
  fun w =>
    (Ok (Z.of_nat (size (selectWhere P (db w)))),
     mkWorld (selectWhere (fun s => negb (P s)) (db w)) (fs w)).

Fixpoint cleanupEach (ids : list string) : M unit :=
  match ids with
  | [] => ret tt
  | i :: rest => do cleanupSessionFiles i in cleanupEach rest
  end.

(** [where: { expiresAt: { lt: now }, completedAt: null }]. *)
Definition expiredPending (now : Z) (s : UploadSession) : bool :=
  (expiresAt s <? now) && bool_decide (completedAt s = None).

(** The two queries of the sweep each read the clock. *)
Definition cleanupExpiredSessions (now1 now2 : Z) : M Z :=
  let* expiredSessions := findMany (expiredPending now1) in
  do cleanupEach expiredSessions in
  deleteMany (expiredPending now2).

(** [where: { completedAt: { lt: cutoff } }]. *)
Definition completedBefore (cutoff : Z) (s : UploadSession) : bool :=
  match completedAt s with
  | Some t => t <? cutoff
  | None => false
  end.

Definition cleanupCompletedSessions (now : Z) : M Z :=
  let cutoff := now - 24 * 60 * 60 * 1000 in
  let* oldSessions := findMany (completedBefore cutoff) in
  do cleanupEach oldSessions in
  deleteMany (completedBefore cutoff).

(** ** Concurrent calls of [storeChunk]

    A call that is in flight is at one of its [await]s; the event loop runs
    one part of one call at a time. *)
Inductive StoreChunkTask : Type :=
  | AtFind (sessionId : string) (chunkIndex : Z) (data : list byte)
           (expectedHash : string)
  | AtWrite (session : UploadSession) (sessionId : string) (chunkIndex : Z)
            (data : list byte) (expectedHash : string)
  | AtUpdate (session : UploadSession) (sessionId : string) (chunkIndex : Z)
  | Done (result : Result StoreChunkResult).

Definition stepTask (now : Z) (t : StoreChunkTask) (w : World)
  : StoreChunkTask * World :=
  match t with
  | AtFind sessionId chunkIndex data expectedHash =>
      match storeChunk_find sessionId w with
      | (Ok session, w') =>
          (AtWrite session sessionId chunkIndex data expectedHash, w')
      | (Err e, w') => (Done (Err e), w')
      end
  | AtWrite session sessionId chunkIndex data expectedHash =>
      match storeChunk_write session sessionId chunkIndex data expectedHash
              now w with
      | (Ok _, w') => (AtUpdate session sessionId chunkIndex, w')
      | (Err e, w') => (Done (Err e), w')
      end
  | AtUpdate session sessionId chunkIndex =>
      let '(r, w') := storeChunk_update session sessionId chunkIndex w in
      (Done r, w')
  | Done r => (Done r, w)
  end.

Inductive Turn : Type := First | Second.

(** Two calls in flight, run under a schedule: who runs next, and the
    clock it reads. *)
Fixpoint interleave (schedule : list (Turn * Z)) (a b : StoreChunkTask)
    (w : World) : StoreChunkTask * StoreChunkTask * World :=
  match schedule with
  | [] => (a, b, w)
  | (First, now) :: rest =>
      let '(a', w') := stepTask now a w in interleave rest a' b w'
  | (Second, now) :: rest =>
      let '(b', w') := stepTask now b w in interleave rest a b' w'
  end.

(** A schedule gives each call its turns.  [turnCount] is the number of
    turns of a call, [turnAt] the position in the schedule of its turn
    number [k] (from 0: the lookup, the write of the file, the update),
    [clockAt] the clock it reads on that turn. *)
Definition sameTurn (a b : Turn) : bool :=
  match a, b with
  | First, First | Second, Second => true
  | _, _ => false
  end.

Fixpoint turnCount (who : Turn) (schedule : list (Turn * Z)) : nat :=
  match schedule with
  | [] => 0
  | (t, _) :: rest =>
      if sameTurn t who then S (turnCount who rest) else turnCount who rest
  end.

Fixpoint turnAt (who : Turn) (k : nat) (schedule : list (Turn * Z)) : option nat :=
  match schedule with
  | [] => None
  | (t, _) :: rest =>
      if sameTurn t who then
        match k with
        | O => Some O
        | S k' => option_map S (turnAt who k' rest)
        end
      else option_map S (turnAt who k rest)
  end.

Fixpoint clockAt (who : Turn) (k : nat) (schedule : list (Turn * Z)) : option Z :=
  match schedule with
  | [] => None
  | (t, now) :: rest =>
      if sameTurn t who then
        match k with
        | O => Some now
        | S k' => clockAt who k' rest
        end
      else clockAt who k rest
  end.

(** Both calls read the row before either writes it back: the lookup of
    each comes before the update of the other. *)
Definition readBeforeWriteBack (schedule : list (Turn * Z)) : bool :=
  match turnAt First 0 schedule, turnAt Second 2 schedule,
        turnAt Second 0 schedule, turnAt First 2 schedule with
  | Some firstReads, Some secondUpdates, Some secondReads, Some firstUpdates =>
      (firstReads <? secondUpdates)%nat && (secondReads <? firstUpdates)%nat
  | _, _, _, _ => false
  end.

(** The call whose update comes last. *)
Definition laterWriter (schedule : list (Turn * Z)) : Turn :=
  match turnAt First 2 schedule, turnAt Second 2 schedule with
  | Some firstUpdates, Some secondUpdates =>
      if (firstUpdates <? secondUpdates)%nat then Second else First
  | Some _, None => First
  | _, _ => Second
  end.

(** ** routes/modpacks/upload.ts: validation of a start request, status *)

Inductive Reply (A : Type) : Type :=
  | Sent (status : Z) (code : string)
  | Returned (response : A).
Arguments Sent {A} status code.
Arguments Returned {A} response.

(** The body of a start request (its numeric fields being numbers). *)
Record UploadStartRequest : Type := mkUploadStartRequest {
  rq_type : string;
  rq_totalSize : Z;
  rq_totalChunks : Z;
  rq_chunkSize : Z;
  rq_finalHash : string
}.

Record UploadStartResponse : Type := mkUploadStartResponse {
  rs_sessionId : string;
  rs_expiresAt : Z
}.

(** The outcome of looking up the modpack and its version. *)
Inductive VersionLookup : Type :=
  | ModpackNotFound
  | VersionNotFound
  | VersionFound (modpackVersionId : string).

Definition uploadStart (lookup : VersionLookup) (userId : string)
    (body : UploadStartRequest) (newId : string) (now : Z) (w : World)
  : Reply UploadStartResponse * World :=
  if negb (bool_decide (rq_type body ∈ ["icons"; "items"]%string)) then
    (Sent 400 "INVALID_TYPE", w)
  else if String.eqb (rq_finalHash body) "" || negb (isValidHash (rq_finalHash body)) then
    (Sent 400 "INVALID_HASH", w)
  else if rq_totalSize body <=? 0 then (Sent 400 "INVALID_SIZE", w)
  else if rq_totalChunks body <=? 0 then (Sent 400 "INVALID_CHUNKS", w)
  else if rq_chunkSize body <=? 0 then (Sent 400 "INVALID_CHUNK_SIZE", w)
  else
    match lookup with
    | ModpackNotFound => (Sent 404 "MODPACK_NOT_FOUND", w)
    | VersionNotFound => (Sent 404 "VERSION_NOT_FOUND", w)
    | VersionFound modpackVersionId =>
        match createUploadSession newId now
                (Params.mk modpackVersionId userId (rq_type body)
                   (rq_totalSize body) (rq_totalChunks body)
                   (rq_chunkSize body) (rq_finalHash body)) w with
        | (Ok session, w') =>
            (Returned (mkUploadStartResponse (sid session) (expiresAt session)), w')
        | (Err _, w') => (Sent 500 "SESSION_CREATE_FAILED", w')
        end
    end.

Record UploadStatusResponse : Type := mkUploadStatusResponse {
  st_sessionId : string;
  st_type : string;
  st_chunksReceived : list Z;
  st_chunksMissing : list Z;
  st_totalChunks : Z;
  st_expiresAt : Z
}.

Definition uploadStatus (sessionId : string) (w : World)
  : Reply UploadStatusResponse :=
  match (getSessionStatus sessionId w).1 with
  | Ok (Some session) =>
      let chunksMissing := getMissingChunks session in
      Returned (mkUploadStatusResponse (sid session) (uploadType session)
                  (chunksReceived session) chunksMissing
                  (totalChunks session) (expiresAt session))
  | _ => Sent 404 "SESSION_NOT_FOUND"
  end.

(** ** The uploading client *)

(** Modelled from the spec: the client's cut of a buffer into pieces of
    [chunkSize] bytes, the last one possibly shorter (the client is not
    part of the service's sources). *)
Fixpoint splitChunks (fuel : nat) (chunkSize : nat) (buffer : list byte)
  : list (list byte) :=
  match fuel, buffer with
  | S n, _ :: _ =>
      take chunkSize buffer :: splitChunks n chunkSize (drop chunkSize buffer)
  | _, _ => []
  end.

Definition chunksOf (chunkSize : nat) (buffer : list byte) : list (list byte) :=
  splitChunks (length buffer) chunkSize buffer.



(** The operations of the service, for statements over every step. *)
Inductive Op : Type :=
  | OpCreate (newId : string) (now : Z) (params : Params.CreateSessionParams)
  | OpStoreChunk (sessionId : string) (chunkIndex : Z) (data : list byte)
                 (expectedHash : string) (now : Z)
  | OpReassemble (sessionId : string) (now : Z)
  | OpCleanupFiles (sessionId : string)
  | OpCleanupExpired (now1 now2 : Z)
  | OpCleanupCompleted (now : Z).

Definition exec (op : Op) (w : World) : World :=
  match op with
  | OpCreate newId now params => (createUploadSession newId now params w).2
  | OpStoreChunk sessionId chunkIndex data expectedHash now =>
      (storeChunk sessionId chunkIndex data expectedHash now w).2
  | OpReassemble sessionId now => (reassembleAndVerify sessionId now w).2
  | OpCleanupFiles sessionId => (cleanupSessionFiles sessionId w).2
  | OpCleanupExpired now1 now2 => (cleanupExpiredSessions now1 now2 w).2
  | OpCleanupCompleted now => (cleanupCompletedSessions now w).2
  end.

(** ** Concrete worlds used in the examples

    The scenario of the protocol description: ten bytes, "abcdefghij", in
    three chunks of four bytes at most. *)

Definition emptyWorld : World := mkWorld ∅ ∅.

Definition demoParams : Params.CreateSessionParams :=
  Params.mk "version-1" "user-1" "items" 10 3 4 (hashBuffer (bytes "abcdefghij")).

Definition demoRun : Result ReassembleResult * World :=
  (do createUploadSession "s1" 1000 demoParams in
   do storeChunk "s1" 0 (bytes "abcd") (hashBuffer (bytes "abcd")) 2000 in
   do storeChunk "s1" 2 (bytes "ij") (hashBuffer (bytes "ij")) 3000 in
   do storeChunk "s1" 1 (bytes "efgh") (hashBuffer (bytes "efgh")) 4000 in
   reassembleAndVerify "s1" 5000) emptyWorld.

(** The session of the scenario, as [createUploadSession] leaves it. *)
Definition demoSession : UploadSession :=
  mkSession "s1" "version-1" "user-1" "items" 10 3 4
            (hashBuffer (bytes "abcdefghij")) [] 3601000 None.

Definition demoCreated : World :=
  (createUploadSession "s1" 1000 demoParams emptyWorld).2.

(** The scenario with the second chunk altered before it is sent: each
    chunk is uploaded with its own hash, and the whole no longer has the
    declared hash. *)
Definition corruptUploaded : World :=
  ((do createUploadSession "s1" 1000 demoParams in
    do storeChunk "s1" 0 (bytes "abcd") (hashBuffer (bytes "abcd")) 2000 in
    do storeChunk "s1" 1 (bytes "efgX") (hashBuffer (bytes "efgX")) 3000 in
    storeChunk "s1" 2 (bytes "ij") (hashBuffer (bytes "ij")) 4000) emptyWorld).2.

(** The scenario after its three uploads, before the reassembly. *)
Definition demoUploaded : World :=
  ((do createUploadSession "s1" 1000 demoParams in
    do storeChunk "s1" 0 (bytes "abcd") (hashBuffer (bytes "abcd")) 2000 in
    do storeChunk "s1" 2 (bytes "ij") (hashBuffer (bytes "ij")) 3000 in
    storeChunk "s1" 1 (bytes "efgh") (hashBuffer (bytes "efgh")) 4000) emptyWorld).2.

(** The scenario after its reassembly at time 5000. *)
Definition demoCompleted : World := demoRun.2.

(** A session of eight chunks, none received yet, and two calls of
    [storeChunk] in flight at once, for the indices 5 and 7: both look the
    session up, then both write their file, then both update the row. *)
Definition raceParams : Params.CreateSessionParams :=
  Params.mk "version-1" "user-1" "icons" 32 8 4 (hashBuffer (bytes "irrelevant")).

Definition raceWorld : World :=
  (createUploadSession "s2" 1000 raceParams emptyWorld).2.

Definition raceSchedule : list (Turn * Z) :=
  [(First, 2000); (Second, 2001); (First, 2002); (Second, 2003);
   (First, 2004); (Second, 2005)].

Definition raceOutcome : StoreChunkTask * StoreChunkTask * World :=
  interleave raceSchedule
    (AtFind "s2" 5 (bytes "five") (hashBuffer (bytes "five")))
    (AtFind "s2" 7 (bytes "seven") (hashBuffer (bytes "seven")))
    raceWorld.

(** The scenario after the chunks 0 and 2 only. *)
Definition demoPartial : World :=
  ((do createUploadSession "s1" 1000 demoParams in
    do storeChunk "s1" 0 (bytes "abcd") (hashBuffer (bytes "abcd")) 2000 in
    storeChunk "s1" 2 (bytes "ij") (hashBuffer (bytes "ij")) 3000) emptyWorld).2.

(** ** More of the hash helpers, the routes and the sweeps *)

(** [stripHashPrefix]: [hash.startsWith("sha256:") ? hash.slice(7) : hash]. *)
Definition stripHashPrefix (hash : string) : string :=
  match stripPrefix "sha256:" hash with
  | Some digest => digest
  | None => hash
  end.

(** The characters of the class [[a-f0-9]], spelled out. *)
Definition lowerHexDigits : list ascii :=
  list_ascii_of_string "0123456789abcdef".

(** *** The chunk route

    [POST .../upload/:sessionId/chunk/:chunkIndex].  The handler is given
    what the framework hands it: the result of [parseInt] on the path
    parameter ([None] for [NaN]), the [X-Chunk-Hash] header if there is
    one, the body if it is a [Buffer], and the authenticated user.  The
    handler reads the clock for its own expiry test, [storeChunk] reads it
    again. *)
Record ChunkUploadResponse : Type := mkChunkUploadResponse {
  cu_chunkIndex : Z;
  cu_verified : bool;
  cu_chunksReceived : Z;
  cu_chunksRemaining : Z
}.

Inductive ChunkReply : Type :=
  | ChunkRefused (status : Z) (code message : string)
  | ChunkHashMismatch (expected received : string) (retryable : bool)
  | ChunkStored (response : ChunkUploadResponse)
  | ChunkThrown (error : Error).

Definition uploadChunk (user sessionId : string) (chunkIndex : option Z)
    (expectedHash : option string) (body : option (list byte))
    (now1 now2 : Z) (w : World) : ChunkReply * World :=
  match chunkIndex with
  | None =>
      (ChunkRefused 400 "INVALID_CHUNK_INDEX"
         "chunkIndex must be a non-negative integer", w)
  | Some chunkIndex =>
      if chunkIndex <? 0 then
        (ChunkRefused 400 "INVALID_CHUNK_INDEX"
           "chunkIndex must be a non-negative integer", w)
      else
        match expectedHash with
        | None =>
            (ChunkRefused 400 "INVALID_CHUNK_HASH"
               "Missing or invalid X-Chunk-Hash header (expected sha256:...)", w)
        | Some expectedHash =>
            if String.eqb expectedHash "" || negb (isValidHash expectedHash) then
              (ChunkRefused 400 "INVALID_CHUNK_HASH"
                 "Missing or invalid X-Chunk-Hash header (expected sha256:...)", w)
            else
              match (getSessionStatus sessionId w).1 with
              | Ok (Some session) =>
                  if negb (String.eqb (userId session) user) then
                    (ChunkRefused 403 "FORBIDDEN"
                       "Not authorized for this upload session", w)
                  else if expiresAt session <? now1 then
                    (ChunkRefused 410 "SESSION_EXPIRED"
                       "Upload session has expired", w)
                  else
                    match body with
                    | None =>
                        (ChunkRefused 400 "INVALID_BODY"
                           "Request body must be binary data", w)
                    | Some data =>
                        if Nat.eqb (length data) 0 then
                          (ChunkRefused 400 "INVALID_BODY"
                             "Request body must be binary data", w)
                        else
                          match storeChunk sessionId chunkIndex data
                                  expectedHash now2 w with
                          | (Ok result, w') =>
                              (ChunkStored
                                 (mkChunkUploadResponse chunkIndex
                                    (sc_verified result)
                                    (sc_chunksReceived result)
                                    (sc_chunksRemaining result)), w')
                          | (Err (ChunkHashMismatchError expected received), w') =>
                              (ChunkHashMismatch expected received true, w')
                          | (Err (SessionExpiredError i), w') =>
                              (ChunkRefused 410 "SESSION_EXPIRED"
                                 ("Upload session has expired: " ++ i)%string, w')
                          | (Err e, w') => (ChunkThrown e, w')
                          end
                    end
              | _ =>
                  (ChunkRefused 404 "SESSION_NOT_FOUND"
                     "Upload session not found", w)
              end
        end
  end.

(** *** The complete route

    [POST .../upload/:sessionId/complete].  The processors of a completed
    file (the extraction and linking of icons, the parsing and import of
    items) read the file and work on the icon store and on the item table,
    outside the upload sessions; here they are parameters, from the bytes
    of the file to the count they report or the exception they throw. *)
Inductive CompleteReply : Type :=
  | CompleteRefused (status : Z) (code : string)
  | CompleteChunksMissing (chunksMissing : list Z)
  | CompleteHashMismatch
  | CompleteUnknownType
  | CompleteProcessingFailed
  | CompletedIcons (iconsProcessed : Z)
  | CompletedItems (itemsProcessed : Z).

Section CompleteRoute.

Variable processIcons : string -> string -> string -> list byte -> Result Z.
Variable processItems : string -> list byte -> Result Z.

Definition processFile {A} (p : Path) (process : list byte -> Result A)
    (w : World) : Result A :=
  match readFile p (fs w) with
  | Ok content => process content
  | Err e => Err e
  end.

Definition uploadComplete (user slug version sessionId : string) (now : Z)
    (w : World) : CompleteReply * World :=
  match (getSessionStatus sessionId w).1 with
  | Ok (Some session) =>
      if negb (String.eqb (userId session) user) then
        (CompleteRefused 403 "FORBIDDEN", w)
      else
        match reassembleAndVerify sessionId now w with
        | (Ok result, w1) =>
            if negb (verified result) then (CompleteHashMismatch, w1)
            else if String.eqb (uploadType session) "icons" then
              match processFile (filePath result)
                      (processIcons slug version (modpackVersionId session)) w1 with
              | Ok n => (CompletedIcons n, (cleanupSessionFiles sessionId w1).2)
              | Err _ => (CompleteProcessingFailed, w1)
              end
            else if String.eqb (uploadType session) "items" then
              match processFile (filePath result)
                      (processItems (modpackVersionId session)) w1 with
              | Ok n => (CompletedItems n, (cleanupSessionFiles sessionId w1).2)
              | Err _ => (CompleteProcessingFailed, w1)
              end
            else (CompleteUnknownType, w1)
        | (Err (ChunksMissingError missing), w1) =>
            (CompleteChunksMissing missing, w1)
        | (Err (FinalHashMismatchError _ _), w1) => (CompleteHashMismatch, w1)
        | (Err _, w1) => (CompleteProcessingFailed, w1)
        end
  | _ => (CompleteRefused 404 "SESSION_NOT_FOUND", w)
  end.

End CompleteRoute.

(** *** utils/cleanup.ts

    [triggerCleanup]: the two sweeps one after the other, each query
    reading the clock. *)
Definition triggerCleanup (now1 now2 now3 : Z) : M (Z * Z) :=
  let* expired := cleanupExpiredSessions now1 now2 in
  let* completed := cleanupCompletedSessions now3 in
  ret (expired, completed).

(** The shape the two sweeps share: a query for the ids, the removal of
    the files of each, and the deletion of the rows of a second query. *)
Definition sweep (P1 P2 : UploadSession -> bool) : M Z :=
  let* ids := findMany P1 in do cleanupEach ids in deleteMany P2.

(** *** The state of the table

    What the service keeps true of every row: it is stored under its own
    id; its received chunks are in ascending order without repetition and
    within [[0, totalChunks)]; and when it is completed every index has
    been received. *)
Definition SessionOk (i : string) (s : UploadSession) : Prop :=
  sid s = i
  /\ StronglySorted Z.lt (chunksReceived s)
  /\ (forall k, k ∈ chunksReceived s -> 0 <= k < totalChunks s)
  /\ (completedAt s <> None ->
      forall k, 0 <= k < totalChunks s -> k ∈ chunksReceived s).

Definition Consistent (w : World) : Prop :=
  forall i s, db w !! i = Some s -> SessionOk i s.

(** A run of the service: its operations one after the other. *)
Definition execAll (ops : list Op) (w : World) : World :=
  fold_left (fun w op => exec op w) ops w.

(** *** services/iconStorage.ts: the item id of an icon file *)

(** [name.indexOf(c)], [None] for -1. *)
Fixpoint indexOf (c : ascii) (name : string) : option nat :=
  match name with
  | EmptyString => None
  | String x rest =>
      if Ascii.eqb x c then Some 0%nat
      else match indexOf c rest with
           | Some k => Some (S k)
           | None => None
           end
  end.

(** [filenameToItemId], after [basename(filename, extname(filename))] has
    given the name without its extension. *)
Definition itemIdOfName (name : string) : string :=
  match indexOf "_" name with
  | None => name
  | Some firstUnderscore =>
      let namespace := substring 0 firstUnderscore name in
      let path :=
        substring (firstUnderscore + 1)
                  (String.length name - (firstUnderscore + 1)) name in
      (namespace ++ ":" ++ path)%string
  end.

Section IconNames.

(** [basename] and [extname] of Node's [path]. *)
Variable basename : string -> string -> string.
Variable extname : string -> string.

Definition filenameToItemId (filename : string) : string :=
  itemIdOfName (basename filename (extname filename)).

End IconNames.

(** * Properties *)

(** ** The hash helpers *)

Example sha256_empty :
  hashBuffer [] = "sha256:e3b0c44298fc1c149afbf4c8996fb92427ae41e4649b934ca495991b7852b855"%string.
Proof. vm_compute. reflexivity. Qed.

Example sha256_abc :
  hashBuffer (bytes "abc") = "sha256:ba7816bf8f01cfea414140de5dae2223b00361a396177a9cb410ff61f20015ad"%string.
Proof. vm_compute. reflexivity. Qed.

Example sha256_two_blocks :
  hashBuffer (bytes "aaaaaaaaaaaaaaaaaaaaaaaaaaaaaaaaaaaaaaaaaaaaaaaaaaaaaaaaaaaaaaaaaaaaaaaaaaaaaaaaaaaaaaaaaaaaaaaaaaaaaaaaaaaaaaaaaaaaaaa")
  = "sha256:31eba51c313a5c08226adf18d4a359cfdfd8d2e816b13f4af952f7ea6584dcfb"%string.
Proof. vm_compute. reflexivity. Qed.

Lemma charCode_inj (x y : ascii) : charCode x = charCode y -> x = y.
Proof.
  unfold charCode. intros H. apply N2Z.inj in H.
  rewrite <- (ascii_N_embedding x), <- (ascii_N_embedding y). now rewrite H.
Qed.

Lemma hashesMatch_loop_zero (a : string) :
  forall (b : string) (r : Z),
    String.length a = String.length b ->
    hashesMatch_loop a b r = 0 <-> r = 0 /\ a = b.
Proof.
  induction a as [|x a IH]; intros [|y b] r Hlen; simpl in *; try discriminate.
  - split; [intros ->; auto | tauto].
  - injection Hlen as Hlen. rewrite (IH b _ Hlen), Z.lor_eq_0_iff. split.
    + intros [[Hr Hx] Hab]. apply Z.lxor_eq in Hx. apply charCode_inj in Hx.
      subst. auto.
    + intros [Hr Heq]. injection Heq as -> ->.
      rewrite Z.lxor_nilpotent. auto.
Qed.

(** [hashesMatch] decides equality of the two strings. *)
Lemma hashesMatch_true (a b : string) : hashesMatch a b = true <-> a = b.
Proof.
  unfold hashesMatch.
  destruct (Nat.eqb (String.length a) (String.length b)) eqn:Hlen; simpl.
  - apply Nat.eqb_eq in Hlen. rewrite Z.eqb_eq, (hashesMatch_loop_zero a b 0 Hlen).
    tauto.
  - apply Nat.eqb_neq in Hlen. split; [discriminate | intros ->; now destruct Hlen].
Qed.

Lemma hashesMatch_false (a b : string) : hashesMatch a b = false <-> a <> b.
Proof.
  rewrite <- hashesMatch_true. destruct (hashesMatch a b); split; congruence.
Qed.

Lemma hashesMatch_refl (a : string) : hashesMatch a a = true.
Proof. now apply hashesMatch_true. Qed.

Lemma isLowerHex_hexDigit (n : Z) : isLowerHex (Sha256.hexDigit n) = true.
Proof.
  destruct n as [|p|p]; try reflexivity.
  do 4 (destruct p as [p|p|]; try reflexivity).
Qed.

Lemma stripPrefix_append (p x : string) :
  stripPrefix p (p ++ x)%string = Some x.
Proof.
  induction p as [|c p IH]; simpl; [reflexivity|].
  now rewrite Ascii.eqb_refl.
Qed.

Lemma allLowerHex_hex (s : Sha256.state) : allLowerHex (Sha256.hex s) = true.
Proof.
  unfold Sha256.hex, Sha256.hexWord, Sha256.nibble. cbn [allLowerHex].
  rewrite !isLowerHex_hexDigit. reflexivity.
Qed.

(** Every hash [hashBuffer] produces has the format [isValidHash] accepts. *)
Lemma isValidHash_hashBuffer (buffer : list byte) :
  isValidHash (hashBuffer buffer) = true.
Proof.
  unfold hashBuffer, isValidHash. rewrite stripPrefix_append.
  unfold Sha256.sha256hex. rewrite allLowerHex_hex. reflexivity.
Qed.

(** From here on the hash helpers are used through the lemmas above. *)
Opaque hashBuffer hashesMatch isValidHash.

(** ** Paths *)

Lemma getSessionDir_inj (a b : string) : getSessionDir a = getSessionDir b -> a = b.
Proof.
  unfold getSessionDir. intros H.
  apply (inj (String.append _)) in H. now apply (inj (String.append _)) in H.
Qed.

Lemma append_String (a : ascii) (s t : string) :
  (String a s ++ t)%string = String a (s ++ t)%string.
Proof. reflexivity. Qed.

Lemma segments_cons (path : string) :
  exists segment more, segments path = segment :: more.
Proof.
  destruct path as [|c rest]; simpl; [eauto|].
  destruct (Ascii.eqb c "/"); [eauto|]. destruct (segments rest); eauto.
Qed.

Lemma segments_append (a b : string) :
  segments (a ++ String "/" b) = segments a ++ segments b.
Proof.
  induction a as [|c a IH]; [reflexivity|].
  rewrite append_String. simpl. rewrite IH.
  destruct (Ascii.eqb c "/"); [reflexivity|].
  destruct (segments_cons a) as (segment & more & ->). reflexivity.
Qed.

Lemma segments_plain (s : string) : hasSlash s = false -> segments s = [s].
Proof.
  induction s as [|c s IH]; [reflexivity|]. simpl.
  destruct (Ascii.eqb c "/"); [discriminate|]. simpl. intros H.
  now rewrite (IH H).
Qed.

Lemma endsWithSlash_append (a b : string) :
  b <> ""%string -> endsWithSlash (a ++ String "/" b) = endsWithSlash b.
Proof.
  intros Hb. induction a as [|c a IH].
  - destruct b; [now destruct Hb | reflexivity].
  - rewrite append_String. simpl. rewrite IH.
    destruct (a ++ String "/" b)%string eqn:E; [|reflexivity].
    destruct a; discriminate.
Qed.

Lemma endsWithSlash_plain (s : string) :
  hasSlash s = false -> endsWithSlash s = false.
Proof.
  induction s as [|c s IH]; [reflexivity|]. simpl.
  destruct (Ascii.eqb c "/"); [discriminate|]. simpl. intros H.
  destruct s; [reflexivity | auto].
Qed.

Lemma isPlainName_spec (s : string) :
  isPlainName s = true
  <-> s <> ""%string /\ s <> "."%string /\ s <> ".."%string /\ hasSlash s = false.
Proof.
  unfold isPlainName. rewrite !andb_true_iff, !negb_true_iff, !String.eqb_neq.
  tauto.
Qed.

Lemma resolveSegment_plain (allowAboveRoot : bool) (res : list string) (s : string) :
  isPlainName s = true -> resolveSegment allowAboveRoot res s = s :: res.
Proof.
  intros H. apply isPlainName_spec in H as (H1 & H2 & H3 & _).
  unfold resolveSegment.
  now rewrite (proj2 (String.eqb_neq _ _) H1), (proj2 (String.eqb_neq _ _) H2),
    (proj2 (String.eqb_neq _ _) H3).
Qed.

(** For a session id that is a plain name, [join(env.uploadDir,
    SESSIONS_SUBDIR, sessionId)] is [getSessionDir sessionId]. *)
Lemma getSessionDir_join (sessionId : string) :
  isPlainName sessionId = true ->
  join [uploadDir; SESSIONS_SUBDIR; sessionId] = getSessionDir sessionId.
Proof.
  intros Hplain. pose proof Hplain as Hspec.
  apply isPlainName_spec in Hspec as (Hne & _ & _ & Hslash).
  unfold join. rewrite !filter_cons_True by (try exact Hne; discriminate).
  rewrite filter_nil.
  change (String.concat "/" [uploadDir; SESSIONS_SUBDIR; sessionId])
    with ("./uploads/sessions" ++ String "/" sessionId)%string.
  unfold normalize, normalizeString.
  rewrite segments_append, (segments_plain sessionId Hslash).
  rewrite endsWithSlash_append, (endsWithSlash_plain sessionId Hslash)
    by exact Hne.
  change (segments "./uploads/sessions") with ["."; "uploads"; "sessions"]%string.
  cbn [app fold_left].
  rewrite (resolveSegment_plain _ _ sessionId Hplain).
  reflexivity.
Qed.

(** And [join(getSessionDir(sessionId), name)], for a plain name, is the
    directory, a [/] and the name. *)
Lemma getSessionDir_join_file (sessionId name : string) :
  isPlainName sessionId = true ->
  isPlainName name = true ->
  join [getSessionDir sessionId; name]
  = (getSessionDir sessionId ++ "/" ++ name)%string.
Proof.
  intros Hplain Hname. pose proof Hplain as Hspec. pose proof Hname as Hspec'.
  apply isPlainName_spec in Hspec as (Hne & _ & _ & Hslash).
  apply isPlainName_spec in Hspec' as (Hne' & _ & _ & Hslash').
  unfold join. rewrite !filter_cons_True by (try exact Hne'; discriminate).
  rewrite filter_nil.
  change (String.concat "/" [getSessionDir sessionId; name])
    with (("uploads/sessions" ++ String "/" sessionId) ++ String "/" name)%string.
  unfold normalize, normalizeString.
  rewrite !segments_append, (segments_plain sessionId Hslash),
    (segments_plain name Hslash').
  rewrite endsWithSlash_append, (endsWithSlash_plain name Hslash')
    by exact Hne'.
  change (segments "uploads/sessions") with ["uploads"; "sessions"]%string.
  cbn [app fold_left].
  rewrite (resolveSegment_plain _ _ sessionId Hplain),
    (resolveSegment_plain _ _ name Hname).
  reflexivity.
Qed.

(** Where the id is not a plain name, [join] normalises it away: the
    empty id and [.] give the sessions directory itself, [..] the upload
    directory, and an id with a trailing [/] the files of the id without
    it. *)
Example join_not_plain :
  join [uploadDir; SESSIONS_SUBDIR; ""] = "uploads/sessions"%string
  /\ join [uploadDir; SESSIONS_SUBDIR; "."] = "uploads/sessions"%string
  /\ join [uploadDir; SESSIONS_SUBDIR; ".."] = "uploads"%string
  /\ join [uploadDir; SESSIONS_SUBDIR; "s1/"] = "uploads/sessions/s1/"%string
  /\ join [join [uploadDir; SESSIONS_SUBDIR; "s1/"]; "complete"]
     = join [join [uploadDir; SESSIONS_SUBDIR; "s1"]; "complete"].
Proof. repeat split; vm_compute; reflexivity. Qed.

Lemma zeros_uint (k : nat) (d : Decimal.uint) :
  zeros k (NilEmpty.string_of_uint d)
  = NilEmpty.string_of_uint (Nat.iter k Decimal.D0 d).
Proof. induction k as [|k IH]; simpl; [reflexivity | now rewrite IH]. Qed.

Lemma of_uint_leading_zeros (k : nat) (d : Decimal.uint) :
  Z.of_uint (Nat.iter k Decimal.D0 d) = Z.of_uint d.
Proof. induction k as [|k IH]; [reflexivity | exact IH]. Qed.

Lemma toString_nonneg (i : Z) :
  0 <= i -> exists d, toString i = NilEmpty.string_of_uint d /\ Z.of_uint d = i.
Proof.
  intros Hi. unfold toString.
  pose proof (DecimalZ.of_to i) as Hof.
  destruct i as [|p|p]; [| |lia].
  - exists Decimal.zero. split; reflexivity.
  - exists (Pos.to_uint p). split; [reflexivity | exact Hof].
Qed.

(** Distinct chunk indices have distinct file names. *)
Lemma chunkName_inj (i j : Z) :
  0 <= i -> 0 <= j -> chunkName i = chunkName j -> i = j.
Proof.
  intros Hi Hj. unfold chunkName, padStart.
  destruct (toString_nonneg i Hi) as (di & -> & <-).
  destruct (toString_nonneg j Hj) as (dj & -> & <-).
  intros H. apply (inj (String.append _)) in H.
  rewrite !zeros_uint in H.
  apply (f_equal NilEmpty.uint_of_string) in H.
  rewrite !NilEmpty.usu in H. injection H as H.
  apply (f_equal Z.of_uint) in H. now rewrite !of_uint_leading_zeros in H.
Qed.

Lemma getChunkPath_inj (sessionId : string) (i j : Z) :
  0 <= i -> 0 <= j -> getChunkPath sessionId i = getChunkPath sessionId j -> i = j.
Proof.
  intros Hi Hj H. apply (f_equal base) in H. simpl in H.
  apply chunkName_inj; assumption.
Qed.

Lemma chunkName_not_complete (i : Z) : chunkName i <> "complete"%string.
Proof. unfold chunkName. cbn. discriminate. Qed.

Example getChunkPath_5 :
  getChunkPath "s1" 5 = mkPath "uploads/sessions/s1" "chunk-000005".
Proof. reflexivity. Qed.

Example getChunkPath_big :
  chunkName 1234567 = "chunk-1234567"%string.
Proof. reflexivity. Qed.

(** ** Sets of indices and sorting *)

Lemma setHas_true (s : list Z) (x : Z) : setHas s x = true <-> x ∈ s.
Proof. unfold setHas. apply bool_decide_eq_true. Qed.

Lemma elem_of_setAdd (s : list Z) (x y : Z) : x ∈ setAdd s y <-> x ∈ s \/ x = y.
Proof.
  unfold setAdd. destruct (setHas s y) eqn:H.
  - apply setHas_true in H. split; [auto | intros [?| ->]; auto].
  - rewrite elem_of_app, list_elem_of_singleton. tauto.
Qed.

Lemma elem_of_fold_setAdd (l : list Z) :
  forall (acc : list Z) (x : Z), x ∈ fold_left setAdd l acc <-> x ∈ acc \/ x ∈ l.
Proof.
  induction l as [|y l IH]; intros acc x; simpl.
  - rewrite elem_of_nil. tauto.
  - rewrite IH, elem_of_setAdd, elem_of_cons. tauto.
Qed.

Lemma elem_of_newSet (l : list Z) (x : Z) : x ∈ newSet l <-> x ∈ l.
Proof. unfold newSet. rewrite elem_of_fold_setAdd, elem_of_nil. tauto. Qed.

Lemma elem_of_sortAscending (l : list Z) (x : Z) : x ∈ sortAscending l <-> x ∈ l.
Proof. unfold sortAscending. now rewrite merge_sort_Permutation. Qed.

(** The array [storeChunk] writes holds the indices it read and the new one. *)
Lemma elem_of_updatedChunks (received : list Z) (chunkIndex x : Z) :
  x ∈ sortAscending (setAdd (newSet received) chunkIndex)
  <-> x ∈ received \/ x = chunkIndex.
Proof. now rewrite elem_of_sortAscending, elem_of_setAdd, elem_of_newSet. Qed.

(** ** The missing chunks *)

Lemma getMissingChunks_loop_filter (receivedSet : list Z) (n : nat) :
  forall (i : Z) (missing : list Z),
    getMissingChunks_loop receivedSet i n missing
    = missing ++ filter (fun k => k ∉ receivedSet) (seqZ i (Z.of_nat n)).
Proof.
  induction n as [|n IH]; intros i missing.
  - simpl. now rewrite app_nil_r.
  - cbn [getMissingChunks_loop]. rewrite IH.
    rewrite (seqZ_cons i (Z.of_nat (S n))) by lia.
    replace (Z.pred (Z.of_nat (S n))) with (Z.of_nat n) by lia.
    replace (Z.succ i) with (i + 1) by lia.
    unfold setHas. destruct (decide (i ∈ receivedSet)) as [Hin|Hout].
    + rewrite bool_decide_eq_true_2 by assumption. simpl.
      now rewrite filter_cons_False by tauto.
    + rewrite bool_decide_eq_false_2 by assumption. simpl.
      rewrite filter_cons_True by assumption. now rewrite <- app_assoc.
Qed.

(** [getMissingChunks], as the filter the loop computes. *)
Lemma getMissingChunks_filter (session : UploadSession) :
  getMissingChunks session
  = filter (fun k => k ∉ chunksReceived session) (seqZ 0 (totalChunks session)).
Proof.
  unfold getMissingChunks. rewrite getMissingChunks_loop_filter. simpl.
  replace (seqZ 0 (Z.of_nat (Z.to_nat (totalChunks session))))
    with (seqZ 0 (totalChunks session))
    by (unfold seqZ; now rewrite Nat2Z.id).
  apply list_filter_iff. intros k. now rewrite elem_of_newSet.
Qed.

Lemma elem_of_getMissingChunks (session : UploadSession) (k : Z) :
  k ∈ getMissingChunks session
  <-> 0 <= k < totalChunks session /\ k ∉ chunksReceived session.
Proof.
  rewrite getMissingChunks_filter, list_elem_of_filter, elem_of_seqZ.
  split; intros [? ?]; split; auto; lia.
Qed.

Lemma StronglySorted_seqZ (n : nat) :
  forall i : Z, StronglySorted Z.lt (seqZ i (Z.of_nat n)).
Proof.
  induction n as [|n IH]; intros i.
  - rewrite seqZ_nil by lia. constructor.
  - rewrite seqZ_cons by lia.
    replace (Z.pred (Z.of_nat (S n))) with (Z.of_nat n) by lia.
    constructor; [apply IH|].
    apply Forall_forall. intros k Hk. apply elem_of_seqZ in Hk. lia.
Qed.

Lemma StronglySorted_filter (P : Z -> Prop) `{!forall x, Decision (P x)}
    (l : list Z) :
  StronglySorted Z.lt l -> StronglySorted Z.lt (filter P l).
Proof.
  induction 1 as [|x l Hl IH Hx]; [constructor|].
  destruct (decide (P x)).
  - rewrite filter_cons_True by assumption. constructor; [exact IH|].
    apply Forall_forall. intros k Hk. apply list_elem_of_filter in Hk as [_ Hk].
    rewrite Forall_forall in Hx. now apply Hx.
  - now rewrite filter_cons_False by assumption.
Qed.

Lemma getMissingChunks_sorted (session : UploadSession) :
  StronglySorted Z.lt (getMissingChunks session).
Proof.
  rewrite getMissingChunks_filter. apply StronglySorted_filter.
  unfold seqZ at 1. rewrite <- (Nat2Z.id (Z.to_nat _)).
  fold (seqZ 0 (Z.of_nat (Z.to_nat (totalChunks session)))).
  apply StronglySorted_seqZ.
Qed.

Lemma getMissingChunks_nil (session : UploadSession) :
  getMissingChunks session = []
  <-> forall k, 0 <= k < totalChunks session -> k ∈ chunksReceived session.
Proof.
  split.
  - intros Hnil k Hk. destruct (decide (k ∈ chunksReceived session)); [assumption|].
    assert (Hin : k ∈ getMissingChunks session)
      by (apply elem_of_getMissingChunks; auto).
    rewrite Hnil in Hin. now apply elem_of_nil in Hin.
  - intros Hall. destruct (getMissingChunks session) as [|k l] eqn:E; [reflexivity|].
    assert (Hin : k ∈ getMissingChunks session) by (rewrite E; left).
    apply elem_of_getMissingChunks in Hin as [Hk Hout]. now destruct Hout; apply Hall.
Qed.

(** ** [storeChunk], branch by branch *)

Ltac run :=
  unfold storeChunk, storeChunk_find, storeChunk_write, storeChunk_update,
    reassembleAndVerify, createUploadSession, cleanupSessionFiles,
    getSessionStatus, bind, ret, throw, findUnique, update, create,
    prisma_update, prisma_create, fs_writeFile, fs_mkdir, fs_rm, writeFile;
  simpl.

Lemma storeChunk_not_found (w : World) sessionId chunkIndex data expectedHash now :
  db w !! sessionId = None ->
  storeChunk sessionId chunkIndex data expectedHash now w
  = (Err (SessionNotFoundError sessionId), w).
Proof. intros H. run. now rewrite H. Qed.

Lemma storeChunk_accepts (w : World) sessionId session chunkIndex data
    expectedHash now files :
  db w !! sessionId = Some session ->
  now <= expiresAt session ->
  0 <= chunkIndex < totalChunks session ->
  hashBuffer data = expectedHash ->
  fs w !! getSessionDir sessionId = Some files ->
  storeChunk sessionId chunkIndex data expectedHash now w
  = (Ok (mkStoreChunkResult true (storeChunk_session session chunkIndex)
           (Z.of_nat (length (chunksReceived (storeChunk_session session chunkIndex))))
           (totalChunks session
            - Z.of_nat (length (chunksReceived (storeChunk_session session chunkIndex))))),
     mkWorld (<[sessionId := storeChunk_session session chunkIndex]> (db w))
             (<[getSessionDir sessionId := <[chunkName chunkIndex := data]> files]> (fs w))).
Proof.
  intros Hs Hexp Hidx Hhash Hdir. run. rewrite Hs. simpl.
  destruct (Z.ltb_spec (expiresAt session) now); [lia|].
  destruct (Z.ltb_spec chunkIndex 0); [lia|].
  destruct (Z.geb_spec chunkIndex (totalChunks session)); [lia|]. simpl.
  rewrite Hhash, hashesMatch_refl. simpl. rewrite Hdir. simpl. rewrite Hs.
  reflexivity.
Qed.

Lemma readFile_written (f : FileSystem) (d name : string) (files : Files)
    (data : list byte) :
  readFile (mkPath d name) (<[d := <[name := data]> files]> f) = Ok data.
Proof. unfold readFile. simpl. now rewrite !lookup_insert_eq. Qed.

(** C3. A chunk whose bytes do not hash to the claimed hash is rejected
    with [ChunkHashMismatchError] carrying the claimed and the actual hash;
    the world is left as it was: no chunk file is written and the row of
    the session is unchanged, so an index that was missing is still
    missing. *)
Theorem storeChunk_hash_mismatch (w : World) (sessionId : string)
    (session : UploadSession) (chunkIndex : Z) (data : list byte)
    (expectedHash : string) (now : Z) :
  db w !! sessionId = Some session ->
  now <= expiresAt session ->
  0 <= chunkIndex < totalChunks session ->
  hashBuffer data <> expectedHash ->
  storeChunk sessionId chunkIndex data expectedHash now w
  = (Err (ChunkHashMismatchError expectedHash (hashBuffer data)), w)
  /\ (chunkIndex ∉ chunksReceived session ->
      exists session',
        db (storeChunk sessionId chunkIndex data expectedHash now w).2 !! sessionId
        = Some session'
        /\ session' = session
        /\ chunkIndex ∈ getMissingChunks session').
Proof.
  intros Hs Hexp Hidx Hhash.
  assert (Hrun : storeChunk sessionId chunkIndex data expectedHash now w
                 = (Err (ChunkHashMismatchError expectedHash (hashBuffer data)), w)).
  { run. rewrite Hs. simpl.
    destruct (Z.ltb_spec (expiresAt session) now); [lia|].
    destruct (Z.ltb_spec chunkIndex 0); [lia|].
    destruct (Z.geb_spec chunkIndex (totalChunks session)); [lia|]. simpl.
    apply hashesMatch_false in Hhash. now rewrite Hhash. }
  split; [exact Hrun|].
  intros Hmissing. rewrite Hrun. simpl. exists session.
  split; [exact Hs|]. split; [reflexivity|].
  apply elem_of_getMissingChunks. auto.
Qed.

Lemma storeChunk_hash_mismatch_witness :
  storeChunk "s1" 0 (bytes "abcd") (hashBuffer (bytes "abcz")) 2000 demoCreated
  = (Err (ChunkHashMismatchError (hashBuffer (bytes "abcz"))
                                 (hashBuffer (bytes "abcd"))), demoCreated).
Proof.
  apply (storeChunk_hash_mismatch demoCreated "s1" demoSession 0
           (bytes "abcd") (hashBuffer (bytes "abcz")) 2000).
  - vm_compute. reflexivity.
  - simpl. lia.
  - simpl. lia.
  - vm_compute. discriminate.
Defined.

(** The branches of [storeChunk] that come after the expiry check never
    raise [SessionExpiredError]. *)
Lemma storeChunk_raises_expired_iff (w : World) (sessionId : string)
    (session : UploadSession) (chunkIndex : Z) (data : list byte)
    (expectedHash : string) (now : Z) (x : string) :
  db w !! sessionId = Some session ->
  (storeChunk sessionId chunkIndex data expectedHash now w).1
    = Err (SessionExpiredError x)
  <-> x = sessionId /\ expiresAt session < now.
Proof.
  intros Hs. run. rewrite Hs. simpl.
  destruct (Z.ltb_spec (expiresAt session) now) as [Hlt|Hge]; simpl.
  - split; [intros [= ->]; auto | intros [-> _]; reflexivity].
  - split; [|lia]. intros H. exfalso.
    destruct (_ || _); simpl in H; [discriminate|].
    destruct (negb _); simpl in H; [discriminate|].
    destruct (fs w !! getSessionDir sessionId); simpl in H; [|discriminate].
    rewrite Hs in H. simpl in H. discriminate.
Qed.

(** C4 (amended). Expiry is tested on every call of [storeChunk], before
    anything else is looked at, and the test is strict: a call on an
    existing session fails with [SessionExpiredError] exactly when
    [expiresAt < now]; it then leaves the world as it was, whatever the
    chunk index, the bytes and the claimed hash. *)
Theorem storeChunk_expired (w : World) (sessionId : string)
    (session : UploadSession) (chunkIndex : Z) (data : list byte)
    (expectedHash : string) (now : Z) :
  db w !! sessionId = Some session ->
  (expiresAt session < now ->
   storeChunk sessionId chunkIndex data expectedHash now w
   = (Err (SessionExpiredError sessionId), w))
  /\ ((storeChunk sessionId chunkIndex data expectedHash now w).1
        = Err (SessionExpiredError sessionId)
      <-> expiresAt session < now).
Proof.
  intros Hs. split.
  - intros Hlt. run. rewrite Hs. simpl.
    destruct (Z.ltb_spec (expiresAt session) now); [reflexivity | lia].
  - rewrite (storeChunk_raises_expired_iff w sessionId session _ _ _ _ _ Hs). tauto.
Qed.

Lemma storeChunk_expired_witness :
  storeChunk "s1" 2 (bytes "ij") (hashBuffer (bytes "ij")) 3601001 demoCreated
  = (Err (SessionExpiredError "s1"), demoCreated).
Proof.
  apply (storeChunk_expired demoCreated "s1" demoSession 2 (bytes "ij")
           (hashBuffer (bytes "ij")) 3601001).
  - vm_compute. reflexivity.
  - vm_compute. reflexivity.
Defined.

(** C4, as stated, fails at the deadline itself: a session whose
    [expiresAt] equals the clock is within [expiresAt <= now], and the
    chunk is accepted, written and recorded. *)
Lemma storeChunk_at_deadline_accepted :
  exists session result w',
    db demoCreated !! "s1" = Some session
    /\ expiresAt session <= 3601000
    /\ storeChunk "s1" 2 (bytes "ij") (hashBuffer (bytes "ij")) 3601000 demoCreated
       = (Ok result, w')
    /\ readFile (getChunkPath "s1" 2) (fs w') = Ok (bytes "ij")
    /\ chunksReceived (sc_session result) = [2].
Proof.
  eexists _, _, _. split; [vm_compute; reflexivity|].
  split; [simpl; lia|].
  split; [vm_compute; reflexivity|].
  split; vm_compute; reflexivity.
Qed.

(** C9. [storeChunk] looks at no length: in an unexpired session whose
    directory is in place, for an index in range, a buffer of any length
    whose hash is the claimed one is written to the chunk file and its
    index recorded as received; [chunkSize] and [totalSize] are not
    consulted. *)
Theorem storeChunk_any_length (w : World) (sessionId : string)
    (session : UploadSession) (chunkIndex : Z) (data : list byte)
    (expectedHash : string) (now : Z) :
  db w !! sessionId = Some session ->
  now <= expiresAt session ->
  0 <= chunkIndex < totalChunks session ->
  is_Some (fs w !! getSessionDir sessionId) ->
  hashesMatch (hashBuffer data) expectedHash = true ->
  exists result w',
    storeChunk sessionId chunkIndex data expectedHash now w = (Ok result, w')
    /\ readFile (getChunkPath sessionId chunkIndex) (fs w') = Ok data
    /\ db w' !! sessionId = Some (sc_session result)
    /\ chunkIndex ∈ chunksReceived (sc_session result)
    /\ chunkSize (sc_session result) = chunkSize session
    /\ totalSize (sc_session result) = totalSize session.
Proof.
  intros Hs Hexp Hidx [files Hdir] Hhash. apply hashesMatch_true in Hhash.
  eexists _, _. split.
  { eapply storeChunk_accepts; eassumption. }
  simpl. split; [apply readFile_written|].
  split; [apply lookup_insert_eq|].
  split; [|split; reflexivity].
  apply elem_of_updatedChunks. now right.
Qed.

(** A hundred bytes for a session that declared chunks of four bytes and
    ten bytes in all. *)
Lemma storeChunk_any_length_witness :
  exists result w',
    storeChunk "s1" 0 (repeat "x"%byte 100)
      (hashBuffer (repeat "x"%byte 100)) 2000 demoCreated = (Ok result, w')
    /\ readFile (getChunkPath "s1" 0) (fs w') = Ok (repeat "x"%byte 100)
    /\ db w' !! "s1" = Some (sc_session result)
    /\ 0 ∈ chunksReceived (sc_session result)
    /\ chunkSize (sc_session result) = chunkSize demoSession
    /\ totalSize (sc_session result) = totalSize demoSession.
Proof.
  apply (storeChunk_any_length demoCreated "s1" demoSession 0
           (repeat "x"%byte 100) (hashBuffer (repeat "x"%byte 100)) 2000).
  - vm_compute. reflexivity.
  - simpl. lia.
  - simpl. lia.
  - exists ∅. vm_compute. reflexivity.
  - vm_compute. reflexivity.
Defined.

(** ** The read loop *)

Lemma readChunks_world sessionId (n : nat) :
  forall i chunks w, (readChunks sessionId i n chunks w).2 = w.
Proof.
  induction n as [|n IH]; intros i chunks w; simpl; [reflexivity|].
  unfold bind, fs_readFile.
  destruct (readFile (getChunkPath sessionId i) (fs w)); simpl; [apply IH | reflexivity].
Qed.

Lemma readChunks_error sessionId (n : nat) :
  forall i chunks w e,
    (readChunks sessionId i n chunks w).1 = Err e -> e = FsError "ENOENT".
Proof.
  induction n as [|n IH]; intros i chunks w e; simpl; [discriminate|].
  unfold bind, fs_readFile.
  destruct (readFile (getChunkPath sessionId i) (fs w)) as [data|e'] eqn:E;
    simpl; [apply IH|].
  intros [= <-]. unfold readFile in E.
  destruct (fs w !! dir (getChunkPath sessionId i)) as [files|]; [|congruence].
  destruct (files !! base (getChunkPath sessionId i)); congruence.
Qed.


(** What the loop returns depends on the chunk files only. *)
Lemma readChunks_ext sessionId (n : nat) :
  forall i chunks w1 w2,
    (forall k, i <= k < i + Z.of_nat n ->
               readFile (getChunkPath sessionId k) (fs w1)
               = readFile (getChunkPath sessionId k) (fs w2)) ->
    (readChunks sessionId i n chunks w1).1 = (readChunks sessionId i n chunks w2).1.
Proof.
  induction n as [|n IH]; intros i chunks w1 w2 Hread; [reflexivity|].
  cbn [readChunks]. unfold bind, fs_readFile.
  rewrite <- (Hread i) by lia.
  destruct (readFile (getChunkPath sessionId i) (fs w1)); simpl; [|reflexivity].
  apply IH. intros k Hk. apply Hread. lia.
Qed.

(** A successful read of at least one chunk shows the session directory. *)
Lemma readChunks_dir sessionId (n : nat) i chunks w result :
  (0 < n)%nat ->
  (readChunks sessionId i n chunks w).1 = Ok result ->
  is_Some (fs w !! getSessionDir sessionId).
Proof.
  destruct n as [|n]; [lia|]. intros _. cbn [readChunks].
  unfold bind, fs_readFile, readFile. simpl.
  destruct (fs w !! getSessionDir sessionId); [eauto | discriminate].
Qed.

(** ** [reassembleAndVerify], branch by branch *)

Lemma reassembleAndVerify_not_found (w : World) sessionId now :
  db w !! sessionId = None ->
  reassembleAndVerify sessionId now w = (Err (SessionNotFoundError sessionId), w).
Proof. intros H. run. now rewrite H. Qed.

Lemma reassembleAndVerify_cases (w : World) sessionId session now :
  db w !! sessionId = Some session ->
  reassembleAndVerify sessionId now w
  = if (0 <? length (getMissingChunks session))%nat then
      (Err (ChunksMissingError (getMissingChunks session)), w)
    else
      match (readChunks sessionId 0 (Z.to_nat (totalChunks session)) [] w).1 with
      | Err e => (Err e, w)
      | Ok chunks =>
          match fs w !! getSessionDir sessionId with
          | None => (Err (FsError "ENOENT"), w)
          | Some files =>
              let written :=
                <[getSessionDir sessionId := <["complete"%string := concat chunks]> files]> (fs w) in
              if hashesMatch (hashBuffer (concat chunks)) (finalHash session) then
                (Ok (mkReassembleResult (getCompletePath sessionId) true
                       (hashBuffer (concat chunks))),
                 mkWorld (<[sessionId := with_completedAt session (Some now)]> (db w))
                         written)
              else
                (Err (FinalHashMismatchError (finalHash session)
                        (hashBuffer (concat chunks))),
                 mkWorld (db w) written)
          end
      end.
Proof.
  intros Hs. run. rewrite Hs. simpl.
  destruct (0 <? length (getMissingChunks session))%nat; [reflexivity|].
  pose proof (readChunks_world sessionId (Z.to_nat (totalChunks session)) 0 [] w) as Hw.
  destruct (readChunks sessionId 0 (Z.to_nat (totalChunks session)) [] w)
    as [[chunks|e] w1]; simpl in *; subst w1; [|reflexivity].
  destruct (fs w !! getSessionDir sessionId) as [files|]; simpl; [|reflexivity].
  destruct (hashesMatch _ _); simpl; [|reflexivity].
  now rewrite Hs.
Qed.

Lemma length_pos_nonnil {A} (l : list A) : (0 <? length l)%nat = true <-> l <> [].
Proof.
  destruct l; simpl; split; try congruence; try discriminate; auto.
Qed.

Lemma length_pos_nil {A} (l : list A) : (0 <? length l)%nat = false <-> l = [].
Proof.
  destruct l; simpl; split; try congruence; try discriminate; auto.
Qed.

(** C6. The missing chunks of a session are the indices of
    [[0, totalChunks)] that are not among the received chunks, in ascending
    order; the list is empty exactly when every index has been received;
    the status route reports this list; and [reassembleAndVerify] fails
    with [ChunksMissingError] carrying this list, changing nothing, exactly
    when the list is not empty. *)
Theorem getMissingChunks_spec (w : World) (sessionId : string)
    (session : UploadSession) (now : Z) :
  db w !! sessionId = Some session ->
  getMissingChunks session
    = filter (fun k => k ∉ chunksReceived session) (seqZ 0 (totalChunks session))
  /\ (forall k, k ∈ getMissingChunks session
                <-> 0 <= k < totalChunks session /\ k ∉ chunksReceived session)
  /\ StronglySorted Z.lt (getMissingChunks session)
  /\ (getMissingChunks session = []
      <-> forall k, 0 <= k < totalChunks session -> k ∈ chunksReceived session)
  /\ (exists response, uploadStatus sessionId w = Returned response
                       /\ st_chunksMissing response = getMissingChunks session)
  /\ (forall missing w',
        reassembleAndVerify sessionId now w = (Err (ChunksMissingError missing), w')
        <-> missing = getMissingChunks session /\ missing <> [] /\ w' = w).
Proof.
  intros Hs.
  split; [apply getMissingChunks_filter|].
  split; [apply elem_of_getMissingChunks|].
  split; [apply getMissingChunks_sorted|].
  split; [apply getMissingChunks_nil|].
  split.
  { unfold uploadStatus, getSessionStatus, findUnique. simpl. rewrite Hs. eauto. }
  intros missing w'. rewrite (reassembleAndVerify_cases w sessionId session now Hs).
  destruct (0 <? length (getMissingChunks session))%nat eqn:Hlen.
  - apply length_pos_nonnil in Hlen. split.
    + intros [= <- <-]. auto.
    + intros (-> & _ & ->). reflexivity.
  - apply length_pos_nil in Hlen. split.
    + intros H. exfalso.
      destruct (readChunks sessionId 0 (Z.to_nat (totalChunks session)) [] w).1
        as [chunks|e] eqn:E.
      * destruct (fs w !! getSessionDir sessionId); [|discriminate].
        simpl in H. destruct (hashesMatch _ _); discriminate.
      * apply readChunks_error in E. subst e. discriminate.
    + intros (-> & Hne & _). contradiction.
Qed.

Lemma getMissingChunks_spec_witness :
  getMissingChunks demoSession = [0; 1; 2]
  /\ reassembleAndVerify "s1" 2000 demoCreated
     = (Err (ChunksMissingError [0; 1; 2]), demoCreated).
Proof.
  destruct (getMissingChunks_spec demoCreated "s1" demoSession 2000)
    as (Hfilter & _ & _ & _ & _ & Hreassemble).
  - vm_compute. reflexivity.
  - split; [rewrite Hfilter; vm_compute; reflexivity|].
    apply Hreassemble. split; [vm_compute; reflexivity|].
    split; [vm_compute; discriminate | reflexivity].
Defined.

Lemma readFile_other (f : FileSystem) (d name : string) (files : Files)
    (data : list byte) (p : Path) :
  f !! d = Some files ->
  p <> mkPath d name ->
  readFile p (<[d := <[name := data]> files]> f) = readFile p f.
Proof.
  intros Hd Hp. unfold readFile. destruct p as [pd pn]. simpl.
  destruct (decide (d = pd)) as [->|Hne].
  - rewrite lookup_insert_eq, Hd.
    rewrite lookup_insert_ne; [reflexivity | congruence].
  - now rewrite lookup_insert_ne.
Qed.

Lemma covered_no_missing (session : UploadSession) :
  (forall k, 0 <= k < totalChunks session -> k ∈ chunksReceived session) ->
  (0 <? length (getMissingChunks session))%nat = false.
Proof. intros H. apply length_pos_nil. now apply getMissingChunks_nil. Qed.

Lemma reassembleAndVerify_fails (w : World) (sessionId : string)
    (session : UploadSession) (chunks : list (list byte)) (now : Z)
    (files : Files) :
  db w !! sessionId = Some session ->
  (forall k, 0 <= k < totalChunks session -> k ∈ chunksReceived session) ->
  (readChunks sessionId 0 (Z.to_nat (totalChunks session)) [] w).1 = Ok chunks ->
  fs w !! getSessionDir sessionId = Some files ->
  hashBuffer (concat chunks) <> finalHash session ->
  reassembleAndVerify sessionId now w
  = (Err (FinalHashMismatchError (finalHash session) (hashBuffer (concat chunks))),
     mkWorld (db w)
             (<[getSessionDir sessionId := <["complete"%string := concat chunks]> files]> (fs w))).
Proof.
  intros Hs Hall Hread Hdir Hhash.
  rewrite (reassembleAndVerify_cases w sessionId session now Hs).
  rewrite (covered_no_missing session Hall), Hread, Hdir. simpl.
  apply hashesMatch_false in Hhash. now rewrite Hhash.
Qed.

(** C2 (amended). When every index has been received and the bytes read
    back do not hash to [finalHash], [reassembleAndVerify] fails with
    [FinalHashMismatchError] carrying the declared and the actual hash, and
    the table is untouched, so that the session stays pending.  The
    assembled bytes have been written to the file [complete] of the
    session before the comparison and stay there; no other file
    changes. *)
Theorem reassembleAndVerify_final_mismatch (w : World) (sessionId : string)
    (session : UploadSession) (chunks : list (list byte)) (now : Z) :
  db w !! sessionId = Some session ->
  (forall k, 0 <= k < totalChunks session -> k ∈ chunksReceived session) ->
  0 < totalChunks session ->
  (readChunks sessionId 0 (Z.to_nat (totalChunks session)) [] w).1 = Ok chunks ->
  hashBuffer (concat chunks) <> finalHash session ->
  exists w',
    reassembleAndVerify sessionId now w
    = (Err (FinalHashMismatchError (finalHash session) (hashBuffer (concat chunks))), w')
    /\ db w' = db w
    /\ readFile (getCompletePath sessionId) (fs w') = Ok (concat chunks)
    /\ (forall p, p <> getCompletePath sessionId ->
                  readFile p (fs w') = readFile p (fs w)).
Proof.
  intros Hs Hall Hpos Hread Hhash.
  assert (Hn : (0 < Z.to_nat (totalChunks session))%nat) by lia.
  destruct (readChunks_dir sessionId _ 0 [] w chunks Hn Hread) as [files Hdir].
  eexists. split; [eapply reassembleAndVerify_fails; eassumption|]. simpl.
  split; [reflexivity|].
  split; [apply readFile_written|].
  intros p Hp. now apply readFile_other.
Qed.

Lemma reassembleAndVerify_final_mismatch_witness :
  exists w',
    reassembleAndVerify "s1" 5000 corruptUploaded
    = (Err (FinalHashMismatchError (hashBuffer (bytes "abcdefghij"))
                                   (hashBuffer (bytes "abcdefgXij"))), w')
    /\ db w' = db corruptUploaded
    /\ readFile (getCompletePath "s1") (fs w') = Ok (bytes "abcdefgXij").
Proof.
  destruct (reassembleAndVerify_final_mismatch corruptUploaded "s1"
              (with_chunksReceived demoSession [0; 1; 2])
              [bytes "abcd"; bytes "efgX"; bytes "ij"] 5000)
    as (w' & Hrun & Hdb & Hfile & _).
  - vm_compute. reflexivity.
  - intros k Hk. change (k ∈ [0; 1; 2]).
    assert (k = 0 \/ k = 1 \/ k = 2) as [-> | [-> | ->]]
      by (simpl in Hk; lia);
      repeat constructor.
  - vm_compute. reflexivity.
  - vm_compute. reflexivity.
  - vm_compute. discriminate.
  - exists w'. auto.
Defined.

(** C2, as stated, fails on the discarding of the assembled bytes: before
    the call the session has no [complete] file, after the failed
    verification it has one, holding the rejected bytes. *)
Lemma reassembleAndVerify_mismatch_keeps_file :
  exists session w',
    db corruptUploaded !! "s1" = Some session
    /\ getMissingChunks session = []
    /\ readFile (getCompletePath "s1") (fs corruptUploaded) = Err (FsError "ENOENT")
    /\ reassembleAndVerify "s1" 5000 corruptUploaded
       = (Err (FinalHashMismatchError (finalHash session)
                 (hashBuffer (bytes "abcdefgXij"))), w')
    /\ completedAt <$> db w' !! "s1" = Some None
    /\ readFile (getCompletePath "s1") (fs w') = Ok (bytes "abcdefgXij").
Proof.
  eexists _, _. split; [vm_compute; reflexivity|].
  split; [vm_compute; reflexivity|].
  split; [vm_compute; reflexivity|].
  split; [vm_compute; reflexivity|].
  split; vm_compute; reflexivity.
Qed.

(** ** The sweeps *)

Lemma lookup_selectWhere (P : UploadSession -> bool) (t : Table) (i : string)
    (s : UploadSession) :
  selectWhere P t !! i = Some s <-> t !! i = Some s /\ P s = true.
Proof.
  unfold selectWhere. rewrite map_lookup_filter_Some. simpl.
  now rewrite Is_true_true.
Qed.

Lemma cleanupEach_db (ids : list string) :
  forall w, (cleanupEach ids w).1 = Ok tt /\ db (cleanupEach ids w).2 = db w.
Proof.
  induction ids as [|i ids IH]; intros w; simpl; [auto|].
  unfold bind, cleanupSessionFiles, fs_rm.
  apply (IH (mkWorld (db w) (rm (getSessionDir i) (fs w)))).
Qed.

Lemma cleanupExpiredSessions_db (now1 now2 : Z) (w : World) :
  db (cleanupExpiredSessions now1 now2 w).2
  = selectWhere (fun s => negb (expiredPending now2 s)) (db w).
Proof.
  unfold cleanupExpiredSessions, bind, findMany. simpl.
  destruct (cleanupEach_db
              (map (fun kv => sid kv.2)
                   (map_to_list (selectWhere (expiredPending now1) (db w)))) w)
    as [Hr Hdb].
  destruct (cleanupEach _ w) as [[[]|e] w1]; simpl in *; [|discriminate].
  unfold deleteMany. simpl. now rewrite Hdb.
Qed.

Lemma cleanupCompletedSessions_db (now : Z) (w : World) :
  db (cleanupCompletedSessions now w).2
  = selectWhere (fun s => negb (completedBefore (now - 24 * 60 * 60 * 1000) s)) (db w).
Proof.
  unfold cleanupCompletedSessions, bind, findMany. simpl.
  destruct (cleanupEach_db
              (map (fun kv => sid kv.2)
                   (map_to_list (selectWhere (completedBefore (now - 86400000)) (db w)))) w)
    as [Hr Hdb].
  destruct (cleanupEach _ w) as [[[]|e] w1]; simpl in *; [|discriminate].
  unfold deleteMany. simpl. now rewrite Hdb.
Qed.

Lemma expiredPending_true (now : Z) (s : UploadSession) :
  expiredPending now s = true <-> expiresAt s < now /\ completedAt s = None.
Proof.
  unfold expiredPending. rewrite andb_true_iff, Z.ltb_lt, bool_decide_eq_true.
  tauto.
Qed.

(** ** Expiry and reassembly *)


Lemma reassembleAndVerify_succeeds (w : World) (sessionId : string)
    (session : UploadSession) (chunks : list (list byte)) (now : Z)
    (files : Files) :
  db w !! sessionId = Some session ->
  (forall k, 0 <= k < totalChunks session -> k ∈ chunksReceived session) ->
  (readChunks sessionId 0 (Z.to_nat (totalChunks session)) [] w).1 = Ok chunks ->
  fs w !! getSessionDir sessionId = Some files ->
  hashBuffer (concat chunks) = finalHash session ->
  reassembleAndVerify sessionId now w
  = (Ok (mkReassembleResult (getCompletePath sessionId) true (finalHash session)),
     mkWorld (<[sessionId := with_completedAt session (Some now)]> (db w))
             (<[getSessionDir sessionId := <["complete"%string := concat chunks]> files]> (fs w))).
Proof.
  intros Hs Hall Hread Hdir Hhash.
  rewrite (reassembleAndVerify_cases w sessionId session now Hs).
  rewrite (covered_no_missing session Hall), Hread, Hdir. simpl.
  now rewrite Hhash, hashesMatch_refl.
Qed.




(** ** Completion *)

(** What a successful [reassembleAndVerify] has seen and done. *)
Lemma reassembleAndVerify_Ok_inv (w w' : World) (sessionId : string) (now : Z)
    (result : ReassembleResult) :
  reassembleAndVerify sessionId now w = (Ok result, w') ->
  exists session chunks files,
    db w !! sessionId = Some session
    /\ (forall k, 0 <= k < totalChunks session -> k ∈ chunksReceived session)
    /\ (readChunks sessionId 0 (Z.to_nat (totalChunks session)) [] w).1 = Ok chunks
    /\ fs w !! getSessionDir sessionId = Some files
    /\ hashBuffer (concat chunks) = finalHash session
    /\ result = mkReassembleResult (getCompletePath sessionId) true (finalHash session)
    /\ w' = mkWorld (<[sessionId := with_completedAt session (Some now)]> (db w))
                    (<[getSessionDir sessionId := <["complete"%string := concat chunks]> files]> (fs w)).
Proof.
  destruct (db w !! sessionId) as [session|] eqn:Hs.
  - rewrite (reassembleAndVerify_cases w sessionId session now Hs).
    destruct (0 <? length (getMissingChunks session))%nat eqn:Hlen; [discriminate|].
    apply length_pos_nil in Hlen.
    pose proof (proj1 (getMissingChunks_nil session) Hlen) as Hall.
    destruct (readChunks sessionId 0 (Z.to_nat (totalChunks session)) [] w).1
      as [chunks|e] eqn:E; [|discriminate].
    destruct (fs w !! getSessionDir sessionId) as [files|] eqn:Hdir; [|discriminate].
    simpl. destruct (hashesMatch _ _) eqn:Hhash; [|discriminate].
    apply hashesMatch_true in Hhash. intros [= <- <-].
    exists session, chunks, files. rewrite Hhash. auto 10.
  - rewrite reassembleAndVerify_not_found by assumption. discriminate.
Qed.

Lemma getChunkPath_not_complete (sessionId : string) (k : Z) :
  getChunkPath sessionId k <> mkPath (getSessionDir sessionId) "complete".
Proof.
  intros H. apply (f_equal base) in H. simpl in H.
  now apply chunkName_not_complete in H.
Qed.

(** The row [storeChunk] leaves: the table is as it was, or the row of the
    session is the one read with the index added. *)
Lemma storeChunk_db (w : World) sessionId chunkIndex data expectedHash now :
  db (storeChunk sessionId chunkIndex data expectedHash now w).2 = db w
  \/ exists session,
       db w !! sessionId = Some session
       /\ db (storeChunk sessionId chunkIndex data expectedHash now w).2
          = <[sessionId := storeChunk_session session chunkIndex]> (db w).
Proof.
  run. destruct (db w !! sessionId) as [session|] eqn:Hs; simpl; [|auto].
  destruct (expiresAt session <? now); simpl; [auto|].
  destruct (_ || _); simpl; [auto|].
  destruct (negb _); simpl; [auto|].
  destruct (fs w !! getSessionDir sessionId); simpl; [|auto].
  rewrite Hs. simpl. right. eauto.
Qed.

Lemma createUploadSession_cases (w : World) newId now params :
  createUploadSession newId now params w
  = if negb (isValidHash (Params.finalHash params)) then
      (Err (GenericError ("Invalid hash format: " ++ Params.finalHash params)%string), w)
    else
      match db w !! newId with
      | Some _ => (Err (PrismaError "P2002"), w)
      | None =>
          let session :=
            mkSession newId (Params.modpackVersionId params) (Params.userId params)
              (Params.type params) (Params.totalSize params)
              (Params.totalChunks params) (Params.chunkSize params)
              (Params.finalHash params) [] (now + 3600000) None in
          (Ok session,
           mkWorld (<[newId := session]> (db w)) (mkdir (getSessionDir newId) (fs w)))
      end.
Proof.
  run. destruct (negb _); [reflexivity|]. simpl.
  destruct (db w !! newId); reflexivity.
Qed.


Lemma storeChunk_keeps_completedAt (w : World) sessionId chunkIndex data
    expectedHash now (i : string) (s s' : UploadSession) :
  db w !! i = Some s ->
  db (storeChunk sessionId chunkIndex data expectedHash now w).2 !! i = Some s' ->
  completedAt s' = completedAt s.
Proof.
  intros Hs Hs'.
  destruct (storeChunk_db w sessionId chunkIndex data expectedHash now)
    as [Heq|(session & Hsession & Heq)]; rewrite Heq in Hs'; [congruence|].
  destruct (decide (sessionId = i)) as [->|Hne].
  - rewrite lookup_insert_eq in Hs'. injection Hs' as <-.
    rewrite Hs in Hsession. now injection Hsession as ->.
  - rewrite lookup_insert_ne in Hs' by assumption. congruence.
Qed.

(** C5 (amended). [completedAt] is null in the session
    [createUploadSession] returns and [storeChunk] never changes it; every
    successful [reassembleAndVerify] writes it, with the clock of that
    call.  [reassembleAndVerify] does not look at [completedAt]: called
    again on the session it has just completed, it reads the chunk files
    again, verifies them again, returns the same result as the first call,
    rewrites the same [complete] file, and overwrites [completedAt] with
    the clock of the second call. *)
Theorem reassembleAndVerify_again (w w1 : World) (sessionId : string)
    (now1 now2 : Z) (result : ReassembleResult) :
  reassembleAndVerify sessionId now1 w = (Ok result, w1) ->
  completedAt <$> db w1 !! sessionId = Some (Some now1)
  /\ (exists w2,
        reassembleAndVerify sessionId now2 w1 = (Ok result, w2)
        /\ completedAt <$> db w2 !! sessionId = Some (Some now2)
        /\ fs w2 = fs w1)
  /\ (forall newId now params w0 session0 w0',
        createUploadSession newId now params w0 = (Ok session0, w0') ->
        completedAt session0 = None)
  /\ (forall i sessionId0 chunkIndex data expectedHash now w0 s s',
        db w0 !! i = Some s ->
        db (storeChunk sessionId0 chunkIndex data expectedHash now w0).2 !! i = Some s' ->
        completedAt s' = completedAt s).
Proof.
  intros Hrun.
  apply reassembleAndVerify_Ok_inv in Hrun
    as (session & chunks & files & Hs & Hall & Hread & Hdir & Hhash & -> & ->).
  simpl. split; [now rewrite lookup_insert_eq|].
  split.
  { eexists. split.
    - eapply (reassembleAndVerify_succeeds _ sessionId
                (with_completedAt session (Some now1)) chunks now2).
      + simpl. apply lookup_insert_eq.
      + exact Hall.
      + simpl. rewrite <- Hread. apply readChunks_ext. intros k _. simpl.
        apply readFile_other; [assumption | apply getChunkPath_not_complete].
      + simpl. apply lookup_insert_eq.
      + exact Hhash.
    - simpl. split; [now rewrite lookup_insert_eq|].
      now rewrite !insert_insert_eq. }
  split.
  { intros newId now params w0 session0 w0'. rewrite createUploadSession_cases.
    destruct (negb _); [discriminate|]. destruct (db w0 !! newId); [discriminate|].
    simpl. now intros [= <- _]. }
  intros i sessionId0 chunkIndex data expectedHash now w0 s s'.
  apply storeChunk_keeps_completedAt.
Qed.

Lemma reassembleAndVerify_again_witness :
  exists w2,
    reassembleAndVerify "s1" 6000 demoCompleted
    = (Ok (mkReassembleResult (getCompletePath "s1") true
             (hashBuffer (bytes "abcdefghij"))), w2)
    /\ completedAt <$> db w2 !! "s1" = Some (Some 6000)
    /\ fs w2 = fs demoCompleted.
Proof.
  destruct (reassembleAndVerify_again demoUploaded demoCompleted "s1" 5000 6000
              (mkReassembleResult (getCompletePath "s1") true
                 (hashBuffer (bytes "abcdefghij"))))
    as (_ & Hagain & _).
  - vm_compute. reflexivity.
  - exact Hagain.
Defined.

(** C5, as stated, fails on both counts.  The session of the scenario is
    completed at 5000; a second [reassembleAndVerify] at 6000 runs the
    verification again and sets [completedAt] a second time; and after a
    [storeChunk] that the completed session still accepts and that
    replaces the second chunk, a further call verifies the changed files
    and fails with [FinalHashMismatchError]: neither the first result nor a
    rejection for being completed. *)
Lemma reassembleAndVerify_after_completed :
  completedAt <$> db demoCompleted !! "s1" = Some (Some 5000)
  /\ completedAt <$> db (reassembleAndVerify "s1" 6000 demoCompleted).2 !! "s1"
     = Some (Some 6000)
  /\ (exists result w',
        storeChunk "s1" 1 (bytes "efgX") (hashBuffer (bytes "efgX")) 5500 demoCompleted
        = (Ok result, w')
        /\ readFile (getChunkPath "s1" 1) (fs w') = Ok (bytes "efgX")
        /\ (reassembleAndVerify "s1" 6000 w').1
           = Err (FinalHashMismatchError (hashBuffer (bytes "abcdefghij"))
                                         (hashBuffer (bytes "abcdefgXij")))).
Proof.
  split; [vm_compute; reflexivity|].
  split; [vm_compute; reflexivity|].
  eexists _, _. split; [vm_compute; reflexivity|].
  split; vm_compute; reflexivity.
Qed.

(** ** The round trip *)



(** Every piece but the last has [chunkSize] bytes; no piece is empty or
    longer. *)
Lemma splitChunks_lengths (size : nat) (fuel : nat) :
  (0 < size)%nat ->
  forall (buffer : list byte) (i : nat) (piece : list byte),
    splitChunks fuel size buffer !! i = Some piece ->
    (0 < length piece <= size)%nat
    /\ (is_Some (splitChunks fuel size buffer !! S i) -> length piece = size).
Proof.
  intros Hsize. induction fuel as [|fuel IH]; intros buffer i piece Hi.
  - destruct buffer; discriminate.
  - destruct buffer as [|b buffer]; [discriminate|].
    cbn [splitChunks] in *. destruct i as [|i].
    + injection Hi as <-. rewrite length_take. simpl length. split; [lia|].
      intros [next Hnext]. simpl in Hnext.
      destruct fuel as [|fuel']; [discriminate|].
      destruct (drop size (b :: buffer)) as [|b' rest] eqn:Hdrop; [discriminate|].
      assert (length (drop size (b :: buffer)) <> 0)%nat by (rewrite Hdrop; simpl; lia).
      rewrite length_drop in *. simpl length in *. lia.
    + simpl in Hi. apply (IH _ _ _ Hi).
Qed.




Lemma mkdir_lookup (d : string) (f : FileSystem) : is_Some (mkdir d f !! d).
Proof.
  unfold mkdir. destruct (f !! d) eqn:E; [now rewrite E|].
  rewrite lookup_insert_eq. eauto.
Qed.




(** The scenario of the protocol description, run: after the chunks 0 and
    2 the status reports the chunk 1 missing and a reassembly is refused
    with that list; after the chunk 1 the reassembly succeeds, gives back
    the ten bytes and completes the session. *)
Example demo_scenario :
  st_chunksMissing <$> (match uploadStatus "s1" demoPartial with
                        | Returned response => Some response
                        | Sent _ _ => None
                        end) = Some [1]
  /\ reassembleAndVerify "s1" 3500 demoPartial
     = (Err (ChunksMissingError [1]), demoPartial)
  /\ demoRun.1 = Ok (mkReassembleResult (getCompletePath "s1") true
                       (hashBuffer (bytes "abcdefghij")))
  /\ readFile (getCompletePath "s1") (fs demoRun.2) = Ok (bytes "abcdefghij")
  /\ completedAt <$> db demoRun.2 !! "s1" = Some (Some 5000)
  /\ chunksReceived <$> db demoRun.2 !! "s1" = Some [0; 1; 2].
Proof. vm_compute. repeat split; reflexivity. Qed.

Example chunksOf_demo :
  chunksOf 4 (bytes "abcdefghij") = [bytes "abcd"; bytes "efgh"; bytes "ij"].
Proof. reflexivity. Qed.

(** ** Creation *)

(** C7 (amended). [createUploadSession] validates the hash only: with a
    malformed [finalHash] it throws a plain [Error] ("Invalid hash
    format") and changes nothing; with a well-formed one, a fresh id and
    numbers that fit the 32-bit [INTEGER] columns of the table, it returns
    a pending session (no chunk received, [completedAt] null, the
    declared numbers stored as given, positive or not) whose [expiresAt]
    is the clock plus one hour, 3600000 ms.  The non-positive numbers, and
    the malformed hash first of all, are turned away by the start route
    with status 400 before [createUploadSession] is called; a request of
    a known type with a well-formed hash and positive numbers that fit the
    columns is answered with the id and the deadline of the session. *)
Theorem createUploadSession_spec (w : World) (newId : string) (now : Z)
    (params : Params.CreateSessionParams) :
  db w !! newId = None ->
  (isValidHash (Params.finalHash params) = false ->
   createUploadSession newId now params w
   = (Err (GenericError ("Invalid hash format: " ++ Params.finalHash params)%string), w))
  /\ (isValidHash (Params.finalHash params) = true ->
      fitsInt32 (Params.totalSize params) = true ->
      fitsInt32 (Params.totalChunks params) = true ->
      fitsInt32 (Params.chunkSize params) = true ->
      exists session w',
        createUploadSession newId now params w = (Ok session, w')
        /\ db w' !! newId = Some session
        /\ is_Some (fs w' !! getSessionDir newId)
        /\ completedAt session = None
        /\ chunksReceived session = []
        /\ expiresAt session = now + 3600000
        /\ totalSize session = Params.totalSize params
        /\ totalChunks session = Params.totalChunks params
        /\ chunkSize session = Params.chunkSize params
        /\ finalHash session = Params.finalHash params)
  /\ (forall lookup userId body,
        isValidHash (rq_finalHash body) = false
        \/ rq_totalSize body <= 0 \/ rq_totalChunks body <= 0
        \/ rq_chunkSize body <= 0 ->
        exists code, uploadStart lookup userId body newId now w = (Sent 400 code, w))
  /\ (forall versionId userId body,
        rq_type body ∈ ["icons"; "items"]%string ->
        isValidHash (rq_finalHash body) = true ->
        0 < rq_totalSize body <= 2147483647 ->
        0 < rq_totalChunks body <= 2147483647 ->
        0 < rq_chunkSize body <= 2147483647 ->
        exists w',
          uploadStart (VersionFound versionId) userId body newId now w
          = (Returned (mkUploadStartResponse newId (now + 3600000)), w')).
Proof.
  intros Hfresh. rewrite createUploadSession_cases, Hfresh.
  split; [now intros ->|].
  split.
  { intros -> _ _ _. simpl. eexists _, _. split; [reflexivity|]. simpl.
    split; [apply lookup_insert_eq|]. split; [apply mkdir_lookup|]. auto 10. }
  split.
  { intros lookup userId body Hbad. unfold uploadStart.
    destruct (negb (bool_decide _)); [eauto|].
    destruct (isValidHash (rq_finalHash body)) eqn:Hhash;
      [|rewrite orb_true_r; eauto].
    rewrite orb_false_r. destruct (String.eqb _ _); [eauto|].
    destruct (Z.leb_spec (rq_totalSize body) 0); [eauto|].
    destruct (Z.leb_spec (rq_totalChunks body) 0); [eauto|].
    destruct (Z.leb_spec (rq_chunkSize body) 0); [eauto|].
    destruct Hbad as [?|[?|[?|?]]]; [discriminate|lia..]. }
  intros versionId userId body Htype Hhash Hsize Hchunks Hchunk.
  unfold uploadStart. rewrite bool_decide_eq_true_2 by assumption. simpl.
  rewrite Hhash. simpl.
  assert (String.eqb (rq_finalHash body) "" = false) as ->.
  { apply String.eqb_neq. intros Heq. rewrite Heq in Hhash. discriminate. }
  simpl.
  destruct (Z.leb_spec (rq_totalSize body) 0); [lia|].
  destruct (Z.leb_spec (rq_totalChunks body) 0); [lia|].
  destruct (Z.leb_spec (rq_chunkSize body) 0); [lia|].
  rewrite createUploadSession_cases. simpl. rewrite Hhash, Hfresh. simpl.
  eauto.
Qed.

Lemma createUploadSession_spec_witness :
  exists session w',
    createUploadSession "s1" 1000 demoParams emptyWorld = (Ok session, w')
    /\ db w' !! "s1" = Some session
    /\ is_Some (fs w' !! getSessionDir "s1")
    /\ completedAt session = None
    /\ chunksReceived session = []
    /\ expiresAt session = 1000 + 3600000
    /\ totalSize session = Params.totalSize demoParams
    /\ totalChunks session = Params.totalChunks demoParams
    /\ chunkSize session = Params.chunkSize demoParams
    /\ finalHash session = Params.finalHash demoParams.
Proof.
  destruct (createUploadSession_spec emptyWorld "s1" 1000 demoParams)
    as (_ & Hok & _).
  - vm_compute. reflexivity.
  - apply Hok; vm_compute; reflexivity.
Defined.

(** C7, as stated, fails on the numbers: with a well-formed hash,
    [createUploadSession] accepts a total size and a chunk count of zero
    and a negative chunk size, and returns the pending session. *)
Lemma createUploadSession_accepts_non_positive :
  exists session w',
    createUploadSession "s3" 1000
      (Params.mk "version-1" "user-1" "items" 0 0 (-4) (hashBuffer [])) emptyWorld
    = (Ok session, w')
    /\ totalSize session = 0 /\ totalChunks session = 0 /\ chunkSize session = -4
    /\ completedAt session = None
    /\ db w' !! "s3" = Some session.
Proof.
  eexists _, _. split; [vm_compute; reflexivity|].
  repeat split; vm_compute; reflexivity.
Qed.

(** ** Concurrent chunk uploads *)

Lemma storeChunk_find_ok (w : World) sessionId session :
  db w !! sessionId = Some session ->
  storeChunk_find sessionId w = (Ok session, w).
Proof. intros H. run. now rewrite H. Qed.

Lemma storeChunk_write_ok (w : World) session sessionId chunkIndex data now files :
  now <= expiresAt session ->
  0 <= chunkIndex < totalChunks session ->
  fs w !! getSessionDir sessionId = Some files ->
  storeChunk_write session sessionId chunkIndex data (hashBuffer data) now w
  = (Ok tt, mkWorld (db w)
              (<[getSessionDir sessionId := <[chunkName chunkIndex := data]> files]> (fs w))).
Proof.
  intros Hexp Hidx Hdir. run.
  destruct (Z.ltb_spec (expiresAt session) now); [lia|].
  destruct (Z.ltb_spec chunkIndex 0); [lia|].
  destruct (Z.geb_spec chunkIndex (totalChunks session)); [lia|]. simpl.
  rewrite hashesMatch_refl. simpl. now rewrite Hdir.
Qed.

(** The update writes the array computed from the row read at the start of
    the call, whatever the row holds by now. *)
Lemma storeChunk_update_ok (w : World) session current sessionId chunkIndex :
  db w !! sessionId = Some current ->
  exists result,
    storeChunk_update session sessionId chunkIndex w
    = (Ok result,
       mkWorld (<[sessionId :=
                   with_chunksReceived current
                     (sortAscending (setAdd (newSet (chunksReceived session)) chunkIndex))]>
                  (db w)) (fs w)).
Proof. intros H. run. rewrite H. simpl. eauto. Qed.

Lemma stepTask_find (w : World) sessionId session chunkIndex data expectedHash now :
  db w !! sessionId = Some session ->
  stepTask now (AtFind sessionId chunkIndex data expectedHash) w
  = (AtWrite session sessionId chunkIndex data expectedHash, w).
Proof. intros H. simpl. now rewrite (storeChunk_find_ok w sessionId session H). Qed.

Lemma stepTask_write (w : World) session sessionId chunkIndex data now files :
  now <= expiresAt session ->
  0 <= chunkIndex < totalChunks session ->
  fs w !! getSessionDir sessionId = Some files ->
  stepTask now (AtWrite session sessionId chunkIndex data (hashBuffer data)) w
  = (AtUpdate session sessionId chunkIndex,
     mkWorld (db w)
       (<[getSessionDir sessionId := <[chunkName chunkIndex := data]> files]> (fs w))).
Proof.
  intros Hexp Hidx Hdir. simpl.
  now rewrite (storeChunk_write_ok w session sessionId chunkIndex data now files).
Qed.

Lemma stepTask_update (w : World) session current sessionId chunkIndex now :
  db w !! sessionId = Some current ->
  exists result,
    stepTask now (AtUpdate session sessionId chunkIndex) w
    = (Done (Ok result),
       mkWorld (<[sessionId :=
                   with_chunksReceived current
                     (sortAscending (setAdd (newSet (chunksReceived session)) chunkIndex))]>
                  (db w)) (fs w)).
Proof.
  intros H. destruct (storeChunk_update_ok w session current sessionId chunkIndex H)
    as [result Hr].
  exists result. simpl. now rewrite Hr.
Qed.

(** A call that runs alone goes through its three parts and is
    [storeChunk]. *)
Lemma interleave_alone (w : World) sessionId chunkIndex data expectedHash now
    (other : StoreChunkTask) :
  interleave [(First, now); (First, now); (First, now)]
    (AtFind sessionId chunkIndex data expectedHash) other w
  = (Done (storeChunk sessionId chunkIndex data expectedHash now w).1, other,
     (storeChunk sessionId chunkIndex data expectedHash now w).2).
Proof.
  unfold storeChunk, bind. simpl.
  destruct (storeChunk_find sessionId w) as [[session|e] w1]; simpl; [|reflexivity].
  destruct (storeChunk_write session sessionId chunkIndex data expectedHash now w1)
    as [[[]|e] w2]; simpl; [|reflexivity].
  destruct (storeChunk_update session sessionId chunkIndex w2) as [r w3].
  reflexivity.
Qed.

(** One turn of a race between two calls that are given the hashes of
    their bytes, in a world where the session and its directory exist. *)
Ltac race_step Hrun Hs Hdir :=
  cbn [interleave] in Hrun;
  first
    [ erewrite stepTask_find in Hrun by (simpl; exact Hs)
    | erewrite stepTask_write in Hrun
        by first [ assumption
                 | simpl; first [exact Hdir | apply lookup_insert_eq] ]
    | match type of Hrun with
      | context [stepTask ?t (AtUpdate ?s ?sid ?k) ?w0] =>
          let r := fresh "r" in
          let Hr := fresh "Hr" in
          let table := eval simpl in (db w0) in
          let current :=
            lazymatch table with
            | <[_ := ?row]> _ => row
            | _ => lazymatch type of Hs with _ = Some ?row => row end
            end in
          destruct (stepTask_update w0 s current sid k t) as [r Hr];
          [ simpl; first [exact Hs | apply lookup_insert_eq]
          | rewrite Hr in Hrun; clear Hr ]
      end ].

Ltac race_file Hij :=
  unfold readFile; simpl; rewrite lookup_insert_eq;
  first
    [ rewrite lookup_insert_eq; reflexivity
    | rewrite lookup_insert_ne, lookup_insert_eq;
      [ reflexivity | intros Heq; apply chunkName_inj in Heq; lia ] ].

(** C8 (amended). [storeChunk] updates the received chunks by a
    read-modify-write from the caller's side: it writes back the array it
    read when the call started, with its own index added.  Two calls for
    different indices that run one after the other both succeed and leave
    both indices recorded.  Two calls in flight together, under any
    schedule of their three turns each in which both have read the row
    before either writes it back, both succeed and both chunk files are
    written, but the row holds what the later writer computed: the index
    of the other call is recorded only if it had been received before. *)
Theorem storeChunk_read_modify_write (w : World) (sessionId : string)
    (session : UploadSession) (i j : Z) (di dj : list byte) (files : Files) :
  db w !! sessionId = Some session ->
  fs w !! getSessionDir sessionId = Some files ->
  0 <= i < totalChunks session ->
  0 <= j < totalChunks session ->
  i <> j ->
  (forall t1 t2,
     t1 <= expiresAt session -> t2 <= expiresAt session ->
     exists r1 w1 r2 w2,
       storeChunk sessionId i di (hashBuffer di) t1 w = (Ok r1, w1)
       /\ storeChunk sessionId j dj (hashBuffer dj) t2 w1 = (Ok r2, w2)
       /\ db w2 !! sessionId = Some (sc_session r2)
       /\ i ∈ chunksReceived (sc_session r2)
       /\ j ∈ chunksReceived (sc_session r2))
  /\ (forall schedule : list (Turn * Z),
        turnCount First schedule = 3%nat ->
        turnCount Second schedule = 3%nat ->
        readBeforeWriteBack schedule = true ->
        (forall who t, clockAt who 1 schedule = Some t -> t <= expiresAt session) ->
        exists r1 r2 w',
          interleave schedule
            (AtFind sessionId i di (hashBuffer di))
            (AtFind sessionId j dj (hashBuffer dj)) w
          = (Done (Ok r1), Done (Ok r2), w')
          /\ readFile (getChunkPath sessionId i) (fs w') = Ok di
          /\ readFile (getChunkPath sessionId j) (fs w') = Ok dj
          /\ chunksReceived <$> db w' !! sessionId
             = Some (sortAscending
                       (setAdd (newSet (chunksReceived session))
                          (match laterWriter schedule with
                           | First => i
                           | Second => j
                           end)))
          /\ (forall s', db w' !! sessionId = Some s' ->
                match laterWriter schedule with
                | First =>
                    i ∈ chunksReceived s'
                    /\ (j ∈ chunksReceived s' <-> j ∈ chunksReceived session)
                | Second =>
                    j ∈ chunksReceived s'
                    /\ (i ∈ chunksReceived s' <-> i ∈ chunksReceived session)
                end)).
Proof.
  intros Hs Hdir Hi Hj Hij. split.
  - intros t1 t2 Ht1 Ht2. eexists _, _, _, _. split.
    { eapply storeChunk_accepts; [exact Hs | exact Ht1 | exact Hi | reflexivity
                                 | exact Hdir]. }
    split.
    { eapply storeChunk_accepts;
        [apply lookup_insert_eq | exact Ht2 | exact Hj | reflexivity
        | apply lookup_insert_eq]. }
    simpl. split; [apply lookup_insert_eq|].
    rewrite !elem_of_updatedChunks. auto.
  - intros schedule HF HS Hread Hclock.
    do 7 (try (destruct schedule as [|[[|] ?] schedule];
               cbn [turnCount sameTurn] in HF, HS;
               try discriminate HF; try discriminate HS)).
    all: try (vm_compute in Hread; discriminate Hread).
    all: pose proof (Hclock First _ eq_refl) as HclockF;
         pose proof (Hclock Second _ eq_refl) as HclockS;
         clear Hclock Hread HF HS.
    all: match goal with
         | |- context [interleave ?l ?a ?b ?w0] =>
             destruct (interleave l a b w0) as [[a' b'] w'] eqn:Hrun
         end.
    all: do 6 race_step Hrun Hs Hdir.
    all: cbn [interleave] in Hrun; injection Hrun as <- <- <-.
    all: eexists _, _, _; split; [reflexivity|].
    all: split; [race_file Hij|]; split; [race_file Hij|].
    all: match goal with
         | |- context [laterWriter ?l] =>
             let v := eval vm_compute in (laterWriter l) in
             change (laterWriter l) with v
         end; cbv iota.
    all: simpl; rewrite !lookup_insert_eq; simpl; split; [reflexivity|].
    all: intros s' [= <-]; simpl; rewrite !elem_of_updatedChunks.
    all: split; [auto|]; split; [intros [?|?]; [assumption | congruence] | auto].
Qed.

Lemma storeChunk_read_modify_write_witness :
  (exists r1 r2 w',
     raceOutcome = (Done (Ok r1), Done (Ok r2), w')
     /\ readFile (getChunkPath "s2" 5) (fs w') = Ok (bytes "five")
     /\ readFile (getChunkPath "s2" 7) (fs w') = Ok (bytes "seven")
     /\ chunksReceived <$> db w' !! "s2"
        = Some (sortAscending (setAdd (newSet []) 7)))
  /\ (exists r1 r2 w',
        interleave [(First, 2000); (Second, 2001); (Second, 2002);
                    (Second, 2003); (First, 2004); (First, 2005)]
          (AtFind "s2" 5 (bytes "five") (hashBuffer (bytes "five")))
          (AtFind "s2" 7 (bytes "seven") (hashBuffer (bytes "seven")))
          raceWorld
        = (Done (Ok r1), Done (Ok r2), w')
        /\ chunksReceived <$> db w' !! "s2"
           = Some (sortAscending (setAdd (newSet []) 5))).
Proof.
  destruct (storeChunk_read_modify_write raceWorld "s2"
              (mkSession "s2" "version-1" "user-1" "icons" 32 8 4
                 (hashBuffer (bytes "irrelevant")) [] 3601000 None)
              5 7 (bytes "five") (bytes "seven") ∅)
    as (_ & Hrace).
  - vm_compute. reflexivity.
  - vm_compute. reflexivity.
  - simpl. lia.
  - simpl. lia.
  - lia.
  - split.
    + destruct (Hrace raceSchedule)
        as (r1 & r2 & w' & Hrun & Hfive & Hseven & Hrow & _).
      * reflexivity.
      * reflexivity.
      * reflexivity.
      * intros [|] t H; vm_compute in H; injection H as <-; simpl; lia.
      * exists r1, r2, w'. auto.
    + destruct (Hrace [(First, 2000); (Second, 2001); (Second, 2002);
                       (Second, 2003); (First, 2004); (First, 2005)])
        as (r1 & r2 & w' & Hrun & _ & _ & Hrow & _).
      * reflexivity.
      * reflexivity.
      * reflexivity.
      * intros [|] t H; vm_compute in H; injection H as <-; simpl; lia.
      * exists r1, r2, w'. auto.
Defined.

(** C8, as stated, fails: the two calls for the indices 5 and 7 of one
    session, run together, both return their result and both chunk files
    are on disk, and afterwards the received chunks are [[7]]: the index 5
    has been lost, and the status reports it missing. *)
Lemma storeChunk_concurrent_lost_update :
  exists r1 r2 w' session',
    raceOutcome = (Done (Ok r1), Done (Ok r2), w')
    /\ sc_verified r1 = true /\ sc_verified r2 = true
    /\ readFile (getChunkPath "s2" 5) (fs w') = Ok (bytes "five")
    /\ readFile (getChunkPath "s2" 7) (fs w') = Ok (bytes "seven")
    /\ db w' !! "s2" = Some session'
    /\ chunksReceived session' = [7]
    /\ (5 ∉ chunksReceived session')
    /\ getMissingChunks session' = [0; 1; 2; 3; 4; 5; 6].
Proof.
  eexists _, _, _, _. split; [vm_compute; reflexivity|].
  split; [reflexivity|]. split; [reflexivity|].
  split; [vm_compute; reflexivity|]. split; [vm_compute; reflexivity|].
  split; [vm_compute; reflexivity|]. split; [vm_compute; reflexivity|].
  split; [|vm_compute; reflexivity].
  simpl. rewrite list_elem_of_singleton. discriminate.
Qed.

(** * Further properties of the service and of its callers *)

(** ** The hash helpers *)

(** X1. [hashesMatch], the comparison that goes through every character
    whatever it finds, decides the equality of the two strings: it returns
    [true] exactly when they are the same string, and so it is symmetric. *)
Theorem hashesMatch_decides_equality (a b : string) :
  (hashesMatch a b = true <-> a = b)
  /\ hashesMatch a b = hashesMatch b a.
Proof.
  split; [apply hashesMatch_true|].
  destruct (hashesMatch a b) eqn:Hab, (hashesMatch b a) eqn:Hba; try reflexivity.
  - apply hashesMatch_true in Hab. apply hashesMatch_false in Hba. congruence.
  - apply hashesMatch_true in Hba. apply hashesMatch_false in Hab. congruence.
Qed.

Lemma stripPrefix_Some (p h d : string) :
  stripPrefix p h = Some d <-> h = (p ++ d)%string.
Proof.
  split.
  - revert h. induction p as [|c p IH]; intros h H; simpl in H.
    + now injection H as ->.
    + destruct h as [|x h]; [discriminate|].
      destruct (Ascii.eqb c x) eqn:E; [|discriminate].
      apply Ascii.eqb_eq in E. subst x. now rewrite (IH h H).
  - intros ->. apply stripPrefix_append.
Qed.

Lemma isLowerHex_digits (c : ascii) :
  isLowerHex c = true <-> c ∈ lowerHexDigits.
Proof.
  rewrite <- (bool_decide_eq_true (c ∈ lowerHexDigits)).
  destruct c as [[] [] [] [] [] [] [] []]; vm_compute; split; congruence.
Qed.

Lemma allLowerHex_Forall (s : string) :
  allLowerHex s = true
  <-> forall c, c ∈ list_ascii_of_string s -> c ∈ lowerHexDigits.
Proof.
  induction s as [|x s IH]; simpl.
  - split; [intros _ c Hc; now apply elem_of_nil in Hc | reflexivity].
  - rewrite andb_true_iff, IH, isLowerHex_digits. split.
    + intros [Hx Hs] c Hc. apply elem_of_cons in Hc as [->|Hc]; auto.
    + intros H. split; [apply H; left | intros c Hc; apply H; now right].
Qed.

(** X2. [isValidHash] accepts exactly the strings made of ["sha256:"]
    followed by sixty-four characters, each one of [0123456789abcdef]:
    nothing before, nothing after, no capital letter. *)
Theorem isValidHash_characterised (hash : string) :
  isValidHash hash = true
  <-> exists digits,
        hash = ("sha256:" ++ digits)%string
        /\ String.length digits = 64%nat
        /\ forall c, c ∈ list_ascii_of_string digits -> c ∈ lowerHexDigits.
Proof.
  Local Transparent isValidHash.
  unfold isValidHash. split.
  - destruct (stripPrefix "sha256:" hash) as [digits|] eqn:E; [|discriminate].
    apply stripPrefix_Some in E. rewrite andb_true_iff, Nat.eqb_eq, allLowerHex_Forall.
    intros [Hlen Hhex]. eauto.
  - intros (digits & -> & Hlen & Hhex). rewrite stripPrefix_append.
    apply andb_true_iff. split; [now apply Nat.eqb_eq | now apply allLowerHex_Forall].
  Local Opaque isValidHash.
Qed.

Lemma length_hex (s : Sha256.state) : String.length (Sha256.hex s) = 64%nat.
Proof. reflexivity. Qed.

(** X3. The hash [hashBuffer] gives for any buffer has the format
    [isValidHash] accepts, and is seventy-one characters long; and a
    well-formed hash is never the empty string. *)
Theorem hashBuffer_well_formed (buffer : list byte) :
  isValidHash (hashBuffer buffer) = true
  /\ String.length (hashBuffer buffer) = 71%nat
  /\ (forall hash, isValidHash hash = true -> String.length hash = 71%nat).
Proof.
  split; [apply isValidHash_hashBuffer|].
  assert (Hall : forall hash, isValidHash hash = true -> String.length hash = 71%nat).
  { Local Transparent isValidHash.
    intros hash. unfold isValidHash.
    destruct (stripPrefix "sha256:" hash) as [digits|] eqn:E; [|discriminate].
    apply stripPrefix_Some in E. subst hash.
    rewrite andb_true_iff, Nat.eqb_eq. intros [Hlen _].
    change (String.length ("sha256:" ++ digits)%string)
      with (7 + String.length digits)%nat.
    now rewrite Hlen.
    Local Opaque isValidHash. }
  split; [|exact Hall]. apply Hall, isValidHash_hashBuffer.
Qed.

(** X4. [stripHashPrefix] takes the seven characters ["sha256:"] off a
    string that starts with them and returns any other string as it is; on
    a well-formed hash it gives the sixty-four digits, to which the prefix
    can be put back, and which are not themselves a well-formed hash. *)
Theorem stripHashPrefix_spec (hash : string) :
  (forall digest, stripHashPrefix ("sha256:" ++ digest)%string = digest)
  /\ ((forall digest, hash <> ("sha256:" ++ digest)%string) ->
      stripHashPrefix hash = hash)
  /\ (isValidHash hash = true ->
      ("sha256:" ++ stripHashPrefix hash)%string = hash
      /\ String.length (stripHashPrefix hash) = 64%nat
      /\ isValidHash (stripHashPrefix hash) = false).
Proof.
  unfold stripHashPrefix. split; [|split].
  - intros digest. now rewrite stripPrefix_append.
  - intros Hno. destruct (stripPrefix "sha256:" hash) as [d|] eqn:E; [|reflexivity].
    apply stripPrefix_Some in E. now destruct (Hno d).
  - intros Hvalid. apply isValidHash_characterised in Hvalid
      as (digits & -> & Hlen & Hhex).
    rewrite stripPrefix_append. split; [reflexivity|]. split; [exact Hlen|].
    destruct (isValidHash digits) eqn:E; [|reflexivity].
    apply isValidHash_characterised in E as (rest & -> & _ & _).
    exfalso. assert (Hs : "s"%char ∈ lowerHexDigits).
    { apply Hhex. left. }
    apply isLowerHex_digits in Hs. discriminate.
Qed.

Lemma stripHashPrefix_spec_witness :
  ("sha256:" ++ stripHashPrefix (hashBuffer (bytes "abc")))%string
  = hashBuffer (bytes "abc")
  /\ String.length (stripHashPrefix (hashBuffer (bytes "abc"))) = 64%nat
  /\ isValidHash (stripHashPrefix (hashBuffer (bytes "abc"))) = false.
Proof.
  apply (stripHashPrefix_spec (hashBuffer (bytes "abc"))).
  vm_compute. reflexivity.
Defined.

(** ** Paths *)

Lemma hasSlash_uint (d : Decimal.uint) :
  hasSlash (NilEmpty.string_of_uint d) = false.
Proof. induction d; simpl; auto. Qed.

(** The name of a chunk file is a plain name. *)
Lemma chunkName_plain (i : Z) : 0 <= i -> isPlainName (chunkName i) = true.
Proof.
  intros Hi. unfold chunkName, padStart.
  destruct (toString_nonneg i Hi) as (d & -> & _). rewrite zeros_uint.
  set (digits := NilEmpty.string_of_uint _).
  assert (Hdigits : hasSlash digits = false) by apply hasSlash_uint.
  clearbody digits. unfold isPlainName.
  change ("chunk-" ++ digits)%string
    with (String "c" (String "h" (String "u" (String "n" (String "k"
           (String "-" digits)))))).
  simpl. now rewrite Hdigits.
Qed.

Lemma append_slash_inj (a b x y : string) :
  hasSlash a = false -> hasSlash b = false ->
  (a ++ String "/" x)%string = (b ++ String "/" y)%string -> a = b /\ x = y.
Proof.
  revert b. induction a as [|c a IH]; intros [|c' b] Ha Hb H.
  - injection H as ->. auto.
  - rewrite append_String in H. injection H as <- _. discriminate.
  - rewrite append_String in H. injection H as -> _. discriminate.
  - rewrite !append_String in H. injection H as -> H. simpl in Ha, Hb.
    apply orb_false_iff in Ha as [_ Ha]. apply orb_false_iff in Hb as [_ Hb].
    destruct (IH b Ha Hb H) as [-> ->]. auto.
Qed.

(** The strings of two paths in the directories of two sessions with plain
    ids are equal only for the same id and the same name. *)
Lemma pathString_inj (s1 s2 name1 name2 : string) :
  isPlainName s1 = true -> isPlainName s2 = true ->
  pathString (mkPath (getSessionDir s1) name1)
  = pathString (mkPath (getSessionDir s2) name2) ->
  s1 = s2 /\ name1 = name2.
Proof.
  intros H1 H2 H. apply isPlainName_spec in H1 as (_ & _ & _ & H1).
  apply isPlainName_spec in H2 as (_ & _ & _ & H2).
  unfold pathString, getSessionDir in H. simpl in H.
  change ((join [uploadDir; SESSIONS_SUBDIR] ++ "/" ++ s1) ++ "/" ++ name1)%string
    with ("uploads/sessions/" ++ (s1 ++ String "/" name1))%string in H.
  change ((join [uploadDir; SESSIONS_SUBDIR] ++ "/" ++ s2) ++ "/" ++ name2)%string
    with ("uploads/sessions/" ++ (s2 ++ String "/" name2))%string in H.
  apply (inj (String.append _)) in H.
  now apply append_slash_inj.
Qed.

(** X5. The paths of the sessions, for session ids that are plain names
    (one segment of a path, as the ids of the rows are) and chunk indices
    that are safe integers.  There [join] leaves the id as it is, and the
    directory, the chunk paths and the complete path of the model are the
    strings the code computes.  The files never collide: two chunk paths
    are equal only for the same session and the same index, no chunk path
    is a complete path, and two complete paths are equal only for the same
    session. *)
Theorem session_paths_distinct (s1 s2 : string) (i j : Z) :
  isPlainName s1 = true -> isPlainName s2 = true ->
  0 <= i <= MAX_SAFE_INTEGER -> 0 <= j <= MAX_SAFE_INTEGER ->
  join [uploadDir; SESSIONS_SUBDIR; s1] = getSessionDir s1
  /\ join [getSessionDir s1; chunkName i] = pathString (getChunkPath s1 i)
  /\ join [getSessionDir s1; "complete"] = pathString (getCompletePath s1)
  /\ (pathString (getChunkPath s1 i) = pathString (getChunkPath s2 j)
      <-> s1 = s2 /\ i = j)
  /\ (getChunkPath s1 i = getChunkPath s2 j <-> s1 = s2 /\ i = j)
  /\ pathString (getChunkPath s1 i) <> pathString (getCompletePath s2)
  /\ (pathString (getCompletePath s1) = pathString (getCompletePath s2)
      <-> s1 = s2).
Proof.
  intros H1 H2 Hi Hj.
  split; [now apply getSessionDir_join|].
  split; [apply getSessionDir_join_file; [exact H1 | apply chunkName_plain; lia]|].
  split; [now apply getSessionDir_join_file|].
  assert (Hchunks : pathString (getChunkPath s1 i) = pathString (getChunkPath s2 j)
                    -> s1 = s2 /\ i = j).
  { intros H. apply pathString_inj in H as [-> H]; [|assumption..].
    split; [reflexivity|]. apply chunkName_inj; [lia | lia | exact H]. }
  split; [split; [exact Hchunks | now intros [-> ->]]|].
  split; [split; [intros H; apply Hchunks; now rewrite H | now intros [-> ->]]|].
  split.
  - intros H. apply pathString_inj in H as [_ H]; [|assumption..].
    now apply chunkName_not_complete in H.
  - split; [|now intros ->].
    intros H. now apply pathString_inj in H as [-> _].
Qed.

Lemma session_paths_distinct_witness :
  join [uploadDir; SESSIONS_SUBDIR; "s1"] = getSessionDir "s1"
  /\ join [getSessionDir "s1"; chunkName 5] = "uploads/sessions/s1/chunk-000005"%string
  /\ (pathString (getChunkPath "s1" 5) = pathString (getChunkPath "s1" 12)
      <-> "s1"%string = "s1"%string /\ 5 = 12).
Proof.
  destruct (session_paths_distinct "s1" "s1" 5 12)
    as (Hdir & Hchunk & _ & Hiff & _).
  - reflexivity.
  - reflexivity.
  - unfold MAX_SAFE_INTEGER. lia.
  - unfold MAX_SAFE_INTEGER. lia.
  - split; [exact Hdir|]. split; [exact Hchunk | exact Hiff].
Defined.

(** ** [storeChunk]: its failures and its footprint *)

Lemma storeChunk_cases (w : World) sessionId session chunkIndex data
    expectedHash now :
  db w !! sessionId = Some session ->
  storeChunk sessionId chunkIndex data expectedHash now w
  = if expiresAt session <? now then (Err (SessionExpiredError sessionId), w)
    else if (chunkIndex <? 0) || (chunkIndex >=? totalChunks session) then
      (Err (GenericError ("Invalid chunk index: " ++ toString chunkIndex
                          ++ " (expected 0-"
                          ++ toString (totalChunks session - 1) ++ ")")%string), w)
    else if negb (hashesMatch (hashBuffer data) expectedHash) then
      (Err (ChunkHashMismatchError expectedHash (hashBuffer data)), w)
    else
      match fs w !! getSessionDir sessionId with
      | None => (Err (FsError "ENOENT"), w)
      | Some files =>
          (Ok (mkStoreChunkResult true (storeChunk_session session chunkIndex)
                 (Z.of_nat (length (chunksReceived (storeChunk_session session chunkIndex))))
                 (totalChunks session
                  - Z.of_nat (length (chunksReceived (storeChunk_session session chunkIndex))))),
           mkWorld (<[sessionId := storeChunk_session session chunkIndex]> (db w))
                   (<[getSessionDir sessionId := <[chunkName chunkIndex := data]> files]> (fs w)))
      end.
Proof.
  intros Hs. run. rewrite Hs. simpl.
  destruct (expiresAt session <? now); [reflexivity|].
  destruct (_ || _); [reflexivity|]. simpl.
  destruct (negb _); [reflexivity|]. simpl.
  destruct (fs w !! getSessionDir sessionId); simpl; [|reflexivity].
  now rewrite Hs.
Qed.

(** X6. An index outside [[0, totalChunks)] is refused with a plain
    [Error]; the refusal comes before the bytes are hashed, so it is the
    same whatever the bytes and the claimed hash, and the world is left as
    it was.  When the index and the count are safe integers, the message
    names the index and the last valid one in decimal digits. *)
Theorem storeChunk_invalid_index (w : World) (sessionId : string)
    (session : UploadSession) (chunkIndex : Z) (data : list byte)
    (expectedHash : string) (now : Z) :
  db w !! sessionId = Some session ->
  now <= expiresAt session ->
  chunkIndex < 0 \/ totalChunks session <= chunkIndex ->
  exists message,
    storeChunk sessionId chunkIndex data expectedHash now w
    = (Err (GenericError message), w)
    /\ (isSafeInteger chunkIndex = true ->
        isSafeInteger (totalChunks session - 1) = true ->
        message = ("Invalid chunk index: " ++ toString chunkIndex
                   ++ " (expected 0-"
                   ++ toString (totalChunks session - 1) ++ ")")%string).
Proof.
  intros Hs Hexp Hidx. rewrite (storeChunk_cases w sessionId session) by assumption.
  destruct (Z.ltb_spec (expiresAt session) now); [lia|].
  destruct (Z.ltb_spec chunkIndex 0); [eauto|].
  destruct (Z.geb_spec chunkIndex (totalChunks session)); [eauto | lia].
Qed.

Lemma storeChunk_invalid_index_witness :
  exists message,
    storeChunk "s1" 3 (bytes "zz") "not a hash" 2000 demoCreated
    = (Err (GenericError message), demoCreated)
    /\ (isSafeInteger 3 = true -> isSafeInteger (3 - 1) = true ->
        message = "Invalid chunk index: 3 (expected 0-2)"%string).
Proof.
  apply (storeChunk_invalid_index demoCreated "s1" demoSession 3 (bytes "zz")
           "not a hash" 2000).
  - vm_compute. reflexivity.
  - simpl. lia.
  - simpl. lia.
Defined.

Lemma storeChunk_failure_unchanged (w w' : World) sessionId chunkIndex data
    expectedHash now (e : Error) :
  storeChunk sessionId chunkIndex data expectedHash now w = (Err e, w') -> w' = w.
Proof.
  destruct (db w !! sessionId) as [session|] eqn:Hs.
  - rewrite (storeChunk_cases w sessionId session) by assumption.
    destruct (expiresAt session <? now); [now intros [= _ <-]|].
    destruct (_ || _); [now intros [= _ <-]|].
    destruct (negb _); [now intros [= _ <-]|].
    destruct (fs w !! getSessionDir sessionId); [discriminate|].
    now intros [= _ <-].
  - rewrite storeChunk_not_found by assumption. now intros [= _ <-].
Qed.

Lemma reassembleAndVerify_failure_db (w : World) sessionId now :
  forall e, (reassembleAndVerify sessionId now w).1 = Err e ->
            db (reassembleAndVerify sessionId now w).2 = db w.
Proof.
  destruct (db w !! sessionId) as [session|] eqn:Hs.
  - rewrite (reassembleAndVerify_cases w sessionId session now Hs).
    destruct (0 <? length (getMissingChunks session))%nat; [reflexivity|].
    destruct (readChunks sessionId 0 (Z.to_nat (totalChunks session)) [] w).1;
      [|reflexivity].
    destruct (fs w !! getSessionDir sessionId); [|reflexivity].
    simpl. destruct (hashesMatch _ _); [discriminate | reflexivity].
  - rewrite reassembleAndVerify_not_found by assumption. reflexivity.
Qed.

Lemma storeChunk_failure_kinds (w w' : World) sessionId chunkIndex data
    expectedHash now (e : Error) :
  storeChunk sessionId chunkIndex data expectedHash now w = (Err e, w') ->
  w' = w
  /\ (e = SessionNotFoundError sessionId
      \/ e = SessionExpiredError sessionId
      \/ (exists message, e = GenericError message)
      \/ e = ChunkHashMismatchError expectedHash (hashBuffer data)
      \/ e = FsError "ENOENT").
Proof.
  destruct (db w !! sessionId) as [session|] eqn:Hs.
  - rewrite (storeChunk_cases w sessionId session) by assumption.
    destruct (expiresAt session <? now); [intros [= <- <-]; auto|].
    destruct (_ || _); [intros [= <- <-]; eauto 6|].
    destruct (negb _); [intros [= <- <-]; auto 6|].
    destruct (fs w !! getSessionDir sessionId); [discriminate|].
    intros [= <- <-]. auto 6.
  - rewrite storeChunk_not_found by assumption. intros [= <- <-]. auto.
Qed.

(** X7. [storeChunk] fails in five ways only, session not found, session
    expired, invalid index, chunk hash mismatch, and the write of the chunk
    file failing for want of the session directory; and a call that fails
    has changed nothing, neither a file nor the table. *)
Theorem storeChunk_failure_changes_nothing (w w' : World) (sessionId : string)
    (chunkIndex : Z) (data : list byte) (expectedHash : string) (now : Z)
    (e : Error) :
  storeChunk sessionId chunkIndex data expectedHash now w = (Err e, w') ->
  w' = w
  /\ (e = SessionNotFoundError sessionId
      \/ e = SessionExpiredError sessionId
      \/ (exists message, e = GenericError message)
      \/ e = ChunkHashMismatchError expectedHash (hashBuffer data)
      \/ e = FsError "ENOENT").
Proof. apply storeChunk_failure_kinds. Qed.

Lemma storeChunk_failure_changes_nothing_witness :
  (storeChunk "s1" 7 (bytes "abcd") (hashBuffer (bytes "abcd")) 2000 demoCreated).2
  = demoCreated.
Proof.
  destruct (storeChunk_failure_changes_nothing demoCreated
              (storeChunk "s1" 7 (bytes "abcd") (hashBuffer (bytes "abcd")) 2000
                 demoCreated).2
              "s1" 7 (bytes "abcd") (hashBuffer (bytes "abcd")) 2000
              (GenericError "Invalid chunk index: 7 (expected 0-2)")) as [Hw _].
  - vm_compute. reflexivity.
  - exact Hw.
Defined.

(** X8. Whatever its outcome, [storeChunk] touches one file and one row at
    most: the rows of the other sessions are as they were, and so is every
    file but the chunk file of the session and index of the call. *)
Theorem storeChunk_footprint (w : World) (sessionId : string) (chunkIndex : Z)
    (data : list byte) (expectedHash : string) (now : Z) :
  (forall other, other <> sessionId ->
     db (storeChunk sessionId chunkIndex data expectedHash now w).2 !! other
     = db w !! other)
  /\ (forall p, p <> getChunkPath sessionId chunkIndex ->
        readFile p (fs (storeChunk sessionId chunkIndex data expectedHash now w).2)
        = readFile p (fs w)).
Proof.
  destruct (db w !! sessionId) as [session|] eqn:Hs.
  - rewrite (storeChunk_cases w sessionId session) by assumption.
    destruct (expiresAt session <? now); [auto|].
    destruct (_ || _); [auto|].
    destruct (negb _); [auto|].
    destruct (fs w !! getSessionDir sessionId) as [files|] eqn:Hdir; [|auto].
    simpl. split.
    + intros other Hother. now rewrite lookup_insert_ne.
    + intros p Hp. now apply readFile_other.
  - rewrite storeChunk_not_found by assumption. auto.
Qed.

(** ** [reassembleAndVerify]: its failures and its footprint *)

(** X9. [reassembleAndVerify] fails in four ways only, session not found,
    chunks missing, a chunk file or the session directory missing on disk,
    and final hash mismatch; a call that fails leaves the table as it was;
    and whatever the outcome, the rows of the other sessions and every
    file but the [complete] file of the session are as they were. *)
Theorem reassembleAndVerify_footprint (w : World) (sessionId : string) (now : Z) :
  (forall e, (reassembleAndVerify sessionId now w).1 = Err e ->
     db (reassembleAndVerify sessionId now w).2 = db w
     /\ (e = SessionNotFoundError sessionId
         \/ (exists missing, e = ChunksMissingError missing)
         \/ e = FsError "ENOENT"
         \/ (exists expected received,
               e = FinalHashMismatchError expected received)))
  /\ (forall other, other <> sessionId ->
        db (reassembleAndVerify sessionId now w).2 !! other = db w !! other)
  /\ (forall p, p <> getCompletePath sessionId ->
        readFile p (fs (reassembleAndVerify sessionId now w).2) = readFile p (fs w)).
Proof.
  destruct (db w !! sessionId) as [session|] eqn:Hs.
  - rewrite (reassembleAndVerify_cases w sessionId session now Hs).
    destruct (0 <? length (getMissingChunks session))%nat.
    { split; [|auto]. intros e [= <-]. eauto 6. }
    destruct (readChunks sessionId 0 (Z.to_nat (totalChunks session)) [] w).1
      as [chunks|e0] eqn:E.
    2:{ apply readChunks_error in E. subst e0. split; [|auto].
        intros e [= <-]. auto 6. }
    destruct (fs w !! getSessionDir sessionId) as [files|] eqn:Hdir.
    2:{ split; [|auto]. intros e [= <-]. auto 6. }
    simpl. destruct (hashesMatch _ _); simpl.
    + split; [discriminate|]. split.
      * intros other Hother. now rewrite lookup_insert_ne.
      * intros p Hp. now apply readFile_other.
    + split; [intros e [= <-]; eauto 8|]. split; [reflexivity|].
      intros p Hp. now apply readFile_other.
  - rewrite reassembleAndVerify_not_found by assumption. simpl.
    split; [|auto]. intros e [= <-]. auto.
Qed.

(** ** The received chunks: order, counts, repeated uploads *)

Lemma NoDup_setAdd (s : list Z) (x : Z) : NoDup s -> NoDup (setAdd s x).
Proof.
  intros Hs. unfold setAdd. destruct (setHas s x) eqn:E; [exact Hs|].
  apply NoDup_app. split; [exact Hs|]. split; [|apply NoDup_singleton].
  intros y Hy Hyx. apply list_elem_of_singleton in Hyx. subst y.
  apply setHas_true in Hy. congruence.
Qed.

Lemma NoDup_fold_setAdd (l : list Z) :
  forall acc, NoDup acc -> NoDup (fold_left setAdd l acc).
Proof.
  induction l as [|x l IH]; intros acc Hacc; simpl; [exact Hacc|].
  apply IH. now apply NoDup_setAdd.
Qed.

Lemma NoDup_newSet (l : list Z) : NoDup (newSet l).
Proof. apply NoDup_fold_setAdd. constructor. Qed.

Lemma fold_setAdd_NoDup (l : list Z) :
  forall acc, NoDup (acc ++ l) -> fold_left setAdd l acc = acc ++ l.
Proof.
  induction l as [|x l IH]; intros acc Hnd; simpl; [now rewrite app_nil_r|].
  assert (Hx : setHas acc x = false).
  { destruct (setHas acc x) eqn:E; [|reflexivity]. apply setHas_true in E.
    apply NoDup_app in Hnd as (_ & Hdisj & _). destruct (Hdisj x E). left. }
  unfold setAdd at 2. rewrite Hx.
  rewrite IH; rewrite <- app_assoc; [reflexivity | exact Hnd].
Qed.

Lemma newSet_NoDup (l : list Z) : NoDup l -> newSet l = l.
Proof. intros H. unfold newSet. now rewrite fold_setAdd_NoDup. Qed.

Lemma StronglySorted_lt_NoDup (l : list Z) : StronglySorted Z.lt l -> NoDup l.
Proof.
  induction 1 as [|x l Hl IH Hx]; constructor; [|exact IH].
  intros Hin. rewrite Forall_forall in Hx. specialize (Hx x Hin). lia.
Qed.

Lemma StronglySorted_le_lt (l : list Z) :
  StronglySorted Z.le l -> NoDup l -> StronglySorted Z.lt l.
Proof.
  induction 1 as [|x l Hl IH Hx]; intros Hnd; [constructor|].
  apply NoDup_cons in Hnd as [Hx' Hnd]. constructor; [now apply IH|].
  rewrite Forall_forall in Hx |- *. intros y Hy.
  specialize (Hx y Hy). assert (x <> y) by (intros ->; contradiction). lia.
Qed.

Lemma StronglySorted_lt_le (l : list Z) :
  StronglySorted Z.lt l -> StronglySorted Z.le l.
Proof.
  induction 1 as [|x l Hl IH Hx]; constructor; [exact IH|].
  eapply Forall_impl; [exact Hx|]. intros y Hy. simpl in Hy. lia.
Qed.

Lemma sortAscending_sorted (l : list Z) :
  NoDup l -> StronglySorted Z.lt (sortAscending l).
Proof.
  intros Hnd. apply StronglySorted_le_lt.
  - apply StronglySorted_merge_sort; apply _.
  - unfold sortAscending. now rewrite merge_sort_Permutation.
Qed.

Lemma sortAscending_id (l : list Z) :
  StronglySorted Z.lt l -> sortAscending l = l.
Proof.
  intros Hl. apply (StronglySorted_unique Z.le).
  - apply StronglySorted_merge_sort; apply _.
  - now apply StronglySorted_lt_le.
  - apply merge_sort_Permutation.
Qed.

(** The array [storeChunk] writes is in strictly ascending order, whatever
    the row held. *)
Lemma storeChunk_session_sorted (session : UploadSession) (chunkIndex : Z) :
  StronglySorted Z.lt (chunksReceived (storeChunk_session session chunkIndex)).
Proof. simpl. apply sortAscending_sorted, NoDup_setAdd, NoDup_newSet. Qed.

Lemma missing_count (received : list Z) (n : Z) :
  NoDup received ->
  (forall k, k ∈ received -> 0 <= k < n) ->
  0 <= n ->
  Z.of_nat (length (filter (fun k => k ∉ received) (seqZ 0 n)))
  = n - Z.of_nat (length received).
Proof.
  intros Hnd Hrange Hn.
  assert (Hperm : filter (fun k => k ∈ received) (seqZ 0 n) ≡ₚ received).
  { apply NoDup_Permutation; [apply NoDup_filter, NoDup_seqZ | exact Hnd |].
    intros k. rewrite list_elem_of_filter, elem_of_seqZ. split; [tauto|].
    intros Hk. split; [exact Hk|]. specialize (Hrange k Hk). lia. }
  pose proof (filter_app_complement (fun k => k ∈ received) (seqZ 0 n)) as Hsplit.
  apply Permutation_length in Hsplit. apply Permutation_length in Hperm.
  rewrite length_app, length_seqZ, Hperm in Hsplit.
  change (fun x : Z => ¬ x ∈ received) with (fun k : Z => k ∉ received) in Hsplit.
  lia.
Qed.

Lemma storeChunk_Ok_inv (w w' : World) sessionId chunkIndex data expectedHash
    now (result : StoreChunkResult) :
  storeChunk sessionId chunkIndex data expectedHash now w = (Ok result, w') ->
  exists session files,
    db w !! sessionId = Some session
    /\ now <= expiresAt session
    /\ 0 <= chunkIndex < totalChunks session
    /\ hashBuffer data = expectedHash
    /\ fs w !! getSessionDir sessionId = Some files
    /\ result = mkStoreChunkResult true (storeChunk_session session chunkIndex)
                  (Z.of_nat (length (chunksReceived (storeChunk_session session chunkIndex))))
                  (totalChunks session
                   - Z.of_nat (length (chunksReceived (storeChunk_session session chunkIndex))))
    /\ w' = mkWorld (<[sessionId := storeChunk_session session chunkIndex]> (db w))
                    (<[getSessionDir sessionId := <[chunkName chunkIndex := data]> files]> (fs w)).
Proof.
  destruct (db w !! sessionId) as [session|] eqn:Hs.
  - rewrite (storeChunk_cases w sessionId session) by assumption.
    destruct (Z.ltb_spec (expiresAt session) now); [discriminate|].
    destruct (Z.ltb_spec chunkIndex 0); [discriminate|].
    destruct (Z.geb_spec chunkIndex (totalChunks session)); [discriminate|]. simpl.
    destruct (hashesMatch _ _) eqn:Hhash; [|discriminate]. simpl.
    apply hashesMatch_true in Hhash.
    destruct (fs w !! getSessionDir sessionId) as [files|]; [|discriminate].
    intros [= <- <-]. exists session, files. repeat split; auto; lia.
  - rewrite storeChunk_not_found by assumption. discriminate.
Qed.

(** X10. What a successful [storeChunk] reports and records: the row it
    writes has its received chunks in strictly ascending order, hence
    without repetition, whatever order the row held before; the count it
    returns is the number of distinct indices received; and, when the
    indices received so far were within [[0, totalChunks)], the remaining
    count it returns is the number of chunks that [getMissingChunks] lists
    for the row written, so that it is zero exactly when none is
    missing. *)
Theorem storeChunk_counts (w w' : World) (sessionId : string) (chunkIndex : Z)
    (data : list byte) (expectedHash : string) (now : Z)
    (result : StoreChunkResult) :
  storeChunk sessionId chunkIndex data expectedHash now w = (Ok result, w') ->
  db w' !! sessionId = Some (sc_session result)
  /\ StronglySorted Z.lt (chunksReceived (sc_session result))
  /\ sc_chunksReceived result
     = Z.of_nat (length (chunksReceived (sc_session result)))
  /\ sc_chunksReceived result + sc_chunksRemaining result
     = totalChunks (sc_session result)
  /\ (forall session, db w !! sessionId = Some session ->
        (forall k, k ∈ chunksReceived session -> 0 <= k < totalChunks session) ->
        sc_chunksRemaining result
        = Z.of_nat (length (getMissingChunks (sc_session result)))
        /\ (sc_chunksRemaining result = 0
            <-> getMissingChunks (sc_session result) = [])).
Proof.
  intros Hrun. apply storeChunk_Ok_inv in Hrun
    as (session & files & Hs & Hexp & Hidx & Hhash & Hdir & -> & ->).
  cbn [sc_session sc_chunksReceived sc_chunksRemaining db].
  split; [apply lookup_insert_eq|].
  split; [apply storeChunk_session_sorted|].
  split; [reflexivity|]. split; [simpl; lia|].
  intros session0 Hs0 Hrange. rewrite Hs in Hs0. injection Hs0 as <-.
  assert (Hcount : totalChunks session
                   - Z.of_nat (length (chunksReceived (storeChunk_session session chunkIndex)))
                   = Z.of_nat (length (getMissingChunks (storeChunk_session session chunkIndex)))).
  { rewrite getMissingChunks_filter.
    change (totalChunks (storeChunk_session session chunkIndex))
      with (totalChunks session).
    rewrite missing_count; [reflexivity | | | lia].
    - apply StronglySorted_lt_NoDup, storeChunk_session_sorted.
    - intros k Hk. simpl in Hk. apply elem_of_updatedChunks in Hk as [Hk| ->];
        [now apply Hrange | exact Hidx]. }
  split; [exact Hcount|]. rewrite Hcount.
  destruct (getMissingChunks (storeChunk_session session chunkIndex));
    simpl; split; intros H; try reflexivity; try discriminate; lia.
Qed.

Lemma storeChunk_counts_witness :
  exists result w',
    storeChunk "s1" 1 (bytes "efgh") (hashBuffer (bytes "efgh")) 4000 demoPartial
    = (Ok result, w')
    /\ chunksReceived (sc_session result) = [0; 1; 2]
    /\ sc_chunksReceived result = 3
    /\ sc_chunksRemaining result = 0
    /\ StronglySorted Z.lt (chunksReceived (sc_session result)).
Proof.
  eexists _, _. split; [vm_compute; reflexivity|].
  split; [vm_compute; reflexivity|]. split; [reflexivity|].
  split; [vm_compute; reflexivity|].
  apply (storeChunk_counts demoPartial
           (storeChunk "s1" 1 (bytes "efgh") (hashBuffer (bytes "efgh")) 4000
              demoPartial).2
           "s1" 1 (bytes "efgh") (hashBuffer (bytes "efgh")) 4000).
  vm_compute. reflexivity.
Defined.

(** X11. Sending a chunk again.  When the index has been received already
    (the received chunks being in ascending order, as [storeChunk] leaves
    them), a further [storeChunk] for it succeeds, replaces the bytes of
    the chunk file by the new ones, and leaves the table exactly as it
    was: the index is not counted twice. *)
Theorem storeChunk_again (w : World) (sessionId : string)
    (session : UploadSession) (chunkIndex : Z) (data : list byte) (now : Z) :
  db w !! sessionId = Some session ->
  StronglySorted Z.lt (chunksReceived session) ->
  chunkIndex ∈ chunksReceived session ->
  now <= expiresAt session ->
  0 <= chunkIndex < totalChunks session ->
  is_Some (fs w !! getSessionDir sessionId) ->
  exists result w',
    storeChunk sessionId chunkIndex data (hashBuffer data) now w = (Ok result, w')
    /\ db w' = db w
    /\ sc_session result = session
    /\ sc_chunksReceived result = Z.of_nat (length (chunksReceived session))
    /\ readFile (getChunkPath sessionId chunkIndex) (fs w') = Ok data.
Proof.
  intros Hs Hsorted Hin Hexp Hidx [files Hdir].
  assert (Hsame : storeChunk_session session chunkIndex = session).
  { unfold storeChunk_session.
    rewrite (newSet_NoDup _ (StronglySorted_lt_NoDup _ Hsorted)).
    unfold setAdd. rewrite (proj2 (setHas_true _ _) Hin).
    rewrite (sortAscending_id _ Hsorted). now destruct session. }
  eexists _, _. split.
  { eapply storeChunk_accepts; [exact Hs | exact Hexp | exact Hidx | reflexivity
                               | exact Hdir]. }
  rewrite Hsame. simpl. split; [now apply insert_id|].
  split; [reflexivity|]. split; [reflexivity|]. apply readFile_written.
Qed.

Lemma storeChunk_again_witness :
  exists result w',
    storeChunk "s1" 1 (bytes "EFGH") (hashBuffer (bytes "EFGH")) 4500 demoUploaded
    = (Ok result, w')
    /\ db w' = db demoUploaded
    /\ sc_session result = with_chunksReceived demoSession [0; 1; 2]
    /\ sc_chunksReceived result
       = Z.of_nat (length (chunksReceived (with_chunksReceived demoSession [0; 1; 2])))
    /\ readFile (getChunkPath "s1" 1) (fs w') = Ok (bytes "EFGH").
Proof.
  apply (storeChunk_again demoUploaded "s1"
           (with_chunksReceived demoSession [0; 1; 2]) 1 (bytes "EFGH") 4500).
  - vm_compute. reflexivity.
  - simpl. repeat constructor.
  - simpl. repeat constructor.
  - simpl. lia.
  - simpl. lia.
  - eexists. vm_compute. reflexivity.
Defined.

(** X12. Progress.  The missing chunks of the row a successful
    [storeChunk] writes are the missing chunks of the row it read, less
    the index just stored; no other index leaves or enters the list, and
    the status route reports the new list. *)
Theorem storeChunk_progress (w w' : World) (sessionId : string) (chunkIndex : Z)
    (data : list byte) (expectedHash : string) (now : Z)
    (result : StoreChunkResult) :
  storeChunk sessionId chunkIndex data expectedHash now w = (Ok result, w') ->
  exists session,
    db w !! sessionId = Some session
    /\ getMissingChunks (sc_session result)
       = filter (fun k => k <> chunkIndex) (getMissingChunks session)
    /\ (exists response,
          uploadStatus sessionId w' = Returned response
          /\ st_chunksMissing response
             = filter (fun k => k <> chunkIndex) (getMissingChunks session)).
Proof.
  intros Hrun. apply storeChunk_Ok_inv in Hrun
    as (session & files & Hs & Hexp & Hidx & Hhash & Hdir & -> & ->).
  exists session. split; [exact Hs|].
  assert (Hmissing : getMissingChunks (storeChunk_session session chunkIndex)
                     = filter (fun k => k <> chunkIndex) (getMissingChunks session)).
  { rewrite !getMissingChunks_filter.
    change (totalChunks (storeChunk_session session chunkIndex))
      with (totalChunks session).
    rewrite list_filter_filter. apply list_filter_iff. intros k. simpl.
    rewrite elem_of_updatedChunks. tauto. }
  split; [exact Hmissing|].
  unfold uploadStatus, getSessionStatus, findUnique. simpl.
  rewrite lookup_insert_eq. eexists. split; [reflexivity|]. exact Hmissing.
Qed.

Lemma storeChunk_progress_witness :
  exists response,
    uploadStatus "s1"
      (storeChunk "s1" 0 (bytes "abcd") (hashBuffer (bytes "abcd")) 2000 demoCreated).2
    = Returned response
    /\ st_chunksMissing response = [1; 2].
Proof.
  destruct (storeChunk_progress demoCreated
              (storeChunk "s1" 0 (bytes "abcd") (hashBuffer (bytes "abcd")) 2000
                 demoCreated).2
              "s1" 0 (bytes "abcd") (hashBuffer (bytes "abcd")) 2000
              (mkStoreChunkResult true (with_chunksReceived demoSession [0]) 1 2))
    as (session & Hs & _ & response & Hstatus & Hmissing).
  - vm_compute. reflexivity.
  - exists response. split; [exact Hstatus|]. rewrite Hmissing.
    assert (session = demoSession) as ->
      by (assert (db demoCreated !! "s1" = Some demoSession)
            by (vm_compute; reflexivity); congruence).
    vm_compute. reflexivity.
Defined.

(** ** What every run of the service keeps *)

Lemma SessionOk_storeChunk (i : string) (session : UploadSession) (chunkIndex : Z) :
  SessionOk i session ->
  0 <= chunkIndex < totalChunks session ->
  SessionOk i (storeChunk_session session chunkIndex).
Proof.
  intros (Hid & _ & Hrange & Hfull) Hidx.
  split; [exact Hid|]. split; [apply storeChunk_session_sorted|].
  split.
  - intros k Hk. simpl in Hk. apply elem_of_updatedChunks in Hk as [Hk| ->];
      [now apply Hrange | exact Hidx].
  - intros Hdone k Hk. simpl. apply elem_of_updatedChunks. left.
    now apply Hfull.
Qed.

Lemma exec_consistent (op : Op) (w : World) :
  Consistent w -> Consistent (exec op w).
Proof.
  intros Hw i s Hlookup.
  destruct op as [newId now params|sessionId chunkIndex data expectedHash now
                 |sessionId now|sessionId|now1 now2|now]; simpl in Hlookup.
  - rewrite createUploadSession_cases in Hlookup.
    destruct (negb _); [now apply Hw|].
    destruct (db w !! newId) eqn:Hnew; [now apply Hw|]. simpl in Hlookup.
    destruct (decide (newId = i)) as [->|Hne].
    + rewrite lookup_insert_eq in Hlookup. injection Hlookup as <-.
      split; [reflexivity|]. split; [constructor|].
      split; [intros k Hk; now apply elem_of_nil in Hk | intros Hdone; now destruct Hdone].
    + rewrite lookup_insert_ne in Hlookup by assumption. now apply Hw.
  - destruct (storeChunk sessionId chunkIndex data expectedHash now w)
      as [[result|e] w'] eqn:Hrun.
    + apply storeChunk_Ok_inv in Hrun
        as (session & files & Hs & _ & Hidx & _ & _ & _ & ->).
      simpl in Hlookup. destruct (decide (sessionId = i)) as [->|Hne].
      * rewrite lookup_insert_eq in Hlookup. injection Hlookup as <-.
        apply SessionOk_storeChunk; [now apply Hw | exact Hidx].
      * rewrite lookup_insert_ne in Hlookup by assumption. now apply Hw.
    + apply storeChunk_failure_unchanged in Hrun. subst w'. now apply Hw.
  - destruct (reassembleAndVerify sessionId now w) as [[result|e] w'] eqn:Hrun.
    + apply reassembleAndVerify_Ok_inv in Hrun
        as (session & chunks & files & Hs & Hall & _ & _ & _ & _ & ->).
      simpl in Hlookup. destruct (decide (sessionId = i)) as [->|Hne].
      * rewrite lookup_insert_eq in Hlookup. injection Hlookup as <-.
        destruct (Hw i session Hs) as (Hid & Hsorted & Hrange & _).
        split; [exact Hid|]. split; [exact Hsorted|]. split; [exact Hrange|].
        intros _. exact Hall.
      * rewrite lookup_insert_ne in Hlookup by assumption. now apply Hw.
    + pose proof (reassembleAndVerify_failure_db w sessionId now) as Hdb.
      rewrite Hrun in Hdb. simpl in Hdb, Hlookup.
      rewrite (Hdb e eq_refl) in Hlookup. now apply Hw.
  - now apply Hw.
  - rewrite cleanupExpiredSessions_db in Hlookup.
    apply lookup_selectWhere in Hlookup as [Hlookup _]. now apply Hw.
  - rewrite cleanupCompletedSessions_db in Hlookup.
    apply lookup_selectWhere in Hlookup as [Hlookup _]. now apply Hw.
Qed.

Lemma Consistent_empty : Consistent emptyWorld.
Proof.
  intros i s H. unfold emptyWorld in H. simpl in H.
  rewrite lookup_empty in H. discriminate.
Qed.

Lemma execAll_consistent (ops : list Op) :
  forall w, Consistent w -> Consistent (execAll ops w).
Proof.
  unfold execAll. induction ops as [|op ops IH]; intros w Hw; simpl; [exact Hw|].
  apply IH. now apply exec_consistent.
Qed.

(** X13. The table is consistent at every point of every run that starts
    from a consistent one, the empty one for a start: each row is stored
    under its own id, its received chunks are in strictly ascending order
    and within [[0, totalChunks)], and a completed row has received every
    index. *)
Theorem runs_stay_consistent :
  Consistent emptyWorld
  /\ forall (ops : list Op) (w : World), Consistent w -> Consistent (execAll ops w).
Proof.
  split; [apply Consistent_empty | apply execAll_consistent].
Qed.

(** X14. What is declared at creation stays.  Over any operation of the
    service, a session that is in the table before and after keeps its id,
    its owner, its target, its type, its declared sizes and chunk count,
    its final hash and its deadline (nothing extends [expiresAt]); the
    indices it had received are still received; and once completed it
    stays completed. *)
Theorem session_declared_fields_immutable (op : Op) (w : World) (i : string)
    (s s' : UploadSession) :
  db w !! i = Some s ->
  db (exec op w) !! i = Some s' ->
  sid s' = sid s
  /\ userId s' = userId s
  /\ modpackVersionId s' = modpackVersionId s
  /\ uploadType s' = uploadType s
  /\ totalSize s' = totalSize s
  /\ totalChunks s' = totalChunks s
  /\ chunkSize s' = chunkSize s
  /\ finalHash s' = finalHash s
  /\ expiresAt s' = expiresAt s
  /\ (forall k, k ∈ chunksReceived s -> k ∈ chunksReceived s')
  /\ (completedAt s <> None -> completedAt s' <> None).
Proof.
  intros Hs Hs'.
  assert (Hsame : s' = s -> sid s' = sid s
            /\ userId s' = userId s /\ modpackVersionId s' = modpackVersionId s
            /\ uploadType s' = uploadType s /\ totalSize s' = totalSize s
            /\ totalChunks s' = totalChunks s /\ chunkSize s' = chunkSize s
            /\ finalHash s' = finalHash s /\ expiresAt s' = expiresAt s
            /\ (forall k, k ∈ chunksReceived s -> k ∈ chunksReceived s')
            /\ (completedAt s <> None -> completedAt s' <> None))
    by (intros ->; auto 12).
  destruct op as [newId now params|sessionId chunkIndex data expectedHash now
                 |sessionId now|sessionId|now1 now2|now]; simpl in Hs'.
  - rewrite createUploadSession_cases in Hs'.
    destruct (negb _); simpl in Hs'; [apply Hsame; congruence|].
    destruct (db w !! newId) eqn:Hnew; simpl in Hs'; [apply Hsame; congruence|].
    destruct (decide (newId = i)) as [->|Hne]; [congruence|].
    rewrite lookup_insert_ne in Hs' by assumption. apply Hsame. congruence.
  - destruct (storeChunk_db w sessionId chunkIndex data expectedHash now)
      as [Heq|(session & Hsession & Heq)]; rewrite Heq in Hs';
      [apply Hsame; congruence|].
    destruct (decide (sessionId = i)) as [->|Hne].
    + rewrite lookup_insert_eq in Hs'. injection Hs' as <-.
      rewrite Hs in Hsession. injection Hsession as <-. simpl.
      repeat (split; [reflexivity|]). split; [|auto].
      intros k Hk. apply elem_of_updatedChunks. now left.
    + rewrite lookup_insert_ne in Hs' by assumption. apply Hsame. congruence.
  - destruct (reassembleAndVerify sessionId now w) as [[result|e] w'] eqn:Hrun.
    + apply reassembleAndVerify_Ok_inv in Hrun
        as (session & chunks & files & Hsession & _ & _ & _ & _ & _ & ->).
      simpl in Hs'. destruct (decide (sessionId = i)) as [->|Hne].
      * rewrite lookup_insert_eq in Hs'. injection Hs' as <-.
        rewrite Hs in Hsession. injection Hsession as <-. simpl.
        repeat (split; [reflexivity|]). split; [auto | discriminate].
      * rewrite lookup_insert_ne in Hs' by assumption. apply Hsame. congruence.
    + pose proof (reassembleAndVerify_failure_db w sessionId now) as Hdb.
      rewrite Hrun in Hdb. simpl in Hdb, Hs'. rewrite (Hdb e eq_refl) in Hs'.
      apply Hsame. congruence.
  - apply Hsame. congruence.
  - rewrite cleanupExpiredSessions_db in Hs'.
    apply lookup_selectWhere in Hs' as [Hs' _]. apply Hsame. congruence.
  - rewrite cleanupCompletedSessions_db in Hs'.
    apply lookup_selectWhere in Hs' as [Hs' _]. apply Hsame. congruence.
Qed.


Lemma session_declared_fields_immutable_witness :
  expiresAt (with_chunksReceived demoSession [0]) = expiresAt demoSession
  /\ totalChunks (with_chunksReceived demoSession [0]) = totalChunks demoSession
  /\ finalHash (with_chunksReceived demoSession [0]) = finalHash demoSession.
Proof.
  destruct (session_declared_fields_immutable
              (OpStoreChunk "s1" 0 (bytes "abcd") (hashBuffer (bytes "abcd")) 2000)
              demoCreated "s1" demoSession (with_chunksReceived demoSession [0]))
    as (_ & _ & _ & _ & _ & Htotal & _ & Hhash & Hexp & _).
  - vm_compute. reflexivity.
  - vm_compute. reflexivity.
  - auto.
Defined.

(** ** Removing the files of a session *)

(** X15. [cleanupSessionFiles], for a session id that is a plain name,
    removes the directory of the session with all it holds, the chunk
    files and the [complete] file: afterwards no file of the session can
    be read.  It does not touch the table, nor the directory of any other
    session with a plain id, it cannot fail, and calling it again changes
    nothing more. *)
Theorem cleanupSessionFiles_spec (w : World) (sessionId : string) :
  isPlainName sessionId = true ->
  join [uploadDir; SESSIONS_SUBDIR; sessionId] = getSessionDir sessionId
  /\ (cleanupSessionFiles sessionId w).1 = Ok tt
  /\ db (cleanupSessionFiles sessionId w).2 = db w
  /\ (forall name,
        readFile (mkPath (getSessionDir sessionId) name)
                 (fs (cleanupSessionFiles sessionId w).2)
        = Err (FsError "ENOENT"))
  /\ (forall other,
        isPlainName other = true ->
        other <> sessionId ->
        join [uploadDir; SESSIONS_SUBDIR; other] = getSessionDir other
        /\ fs (cleanupSessionFiles sessionId w).2 !! getSessionDir other
           = fs w !! getSessionDir other)
  /\ (cleanupSessionFiles sessionId (cleanupSessionFiles sessionId w).2).2
     = (cleanupSessionFiles sessionId w).2.
Proof.
  intros Hplain. split; [now apply getSessionDir_join|].
  unfold cleanupSessionFiles, fs_rm, rm. simpl.
  split; [reflexivity|]. split; [reflexivity|]. split; [|split].
  - intros name. unfold readFile. simpl. now rewrite lookup_delete_eq.
  - intros other Hother Hne. split; [now apply getSessionDir_join|].
    rewrite lookup_delete_ne; [reflexivity|].
    intros Heq. apply getSessionDir_inj in Heq. congruence.
  - f_equal. apply map_eq. intros d.
    destruct (decide (getSessionDir sessionId = d)) as [->|Hne].
    + now rewrite !lookup_delete_eq.
    + now rewrite !lookup_delete_ne.
Qed.

Lemma cleanupSessionFiles_spec_witness :
  (cleanupSessionFiles "s1" demoUploaded).1 = Ok tt
  /\ readFile (getChunkPath "s1" 1) (fs (cleanupSessionFiles "s1" demoUploaded).2)
     = Err (FsError "ENOENT").
Proof.
  destruct (cleanupSessionFiles_spec demoUploaded "s1")
    as (_ & Hok & _ & Hgone & _).
  - reflexivity.
  - split; [exact Hok | apply Hgone].
Defined.

(** X16. Only [createUploadSession] makes the directory of a session.
    Once [cleanupSessionFiles] has removed it, the row being still in the
    table, a chunk with a correct hash is no longer stored: [storeChunk]
    fails on the write of the file and changes nothing; and
    [reassembleAndVerify] of a session that had received every chunk
    fails on the first read and leaves the row as it was. *)
Theorem after_cleanupSessionFiles (w : World) (sessionId : string)
    (session : UploadSession) (chunkIndex : Z) (data : list byte) (now : Z) :
  db w !! sessionId = Some session ->
  now <= expiresAt session ->
  0 <= chunkIndex < totalChunks session ->
  storeChunk sessionId chunkIndex data (hashBuffer data) now
    (cleanupSessionFiles sessionId w).2
  = (Err (FsError "ENOENT"), (cleanupSessionFiles sessionId w).2)
  /\ ((forall k, 0 <= k < totalChunks session -> k ∈ chunksReceived session) ->
      reassembleAndVerify sessionId now (cleanupSessionFiles sessionId w).2
      = (Err (FsError "ENOENT"), (cleanupSessionFiles sessionId w).2)).
Proof.
  intros Hs Hexp Hidx. split.
  - rewrite (storeChunk_cases _ sessionId session) by exact Hs.
    destruct (Z.ltb_spec (expiresAt session) now); [lia|].
    destruct (Z.ltb_spec chunkIndex 0); [lia|].
    destruct (Z.geb_spec chunkIndex (totalChunks session)); [lia|]. simpl.
    rewrite hashesMatch_refl. simpl.
    unfold rm. now rewrite lookup_delete_eq.
  - intros Hall. rewrite (reassembleAndVerify_cases _ sessionId session now)
      by exact Hs.
    rewrite (covered_no_missing session Hall).
    destruct (Z.to_nat (totalChunks session)) as [|n] eqn:Hn; [lia|].
    cbn [readChunks]. unfold bind, fs_readFile, readFile. simpl.
    unfold rm. now rewrite lookup_delete_eq.
Qed.

Lemma after_cleanupSessionFiles_witness :
  storeChunk "s1" 1 (bytes "efgh") (hashBuffer (bytes "efgh")) 4500
    (cleanupSessionFiles "s1" demoUploaded).2
  = (Err (FsError "ENOENT"), (cleanupSessionFiles "s1" demoUploaded).2).
Proof.
  apply (after_cleanupSessionFiles demoUploaded "s1"
           (with_chunksReceived demoSession [0; 1; 2]) 1 (bytes "efgh") 4500).
  - vm_compute. reflexivity.
  - simpl. lia.
  - simpl. lia.
Defined.

(** ** The sweeps *)

Lemma cleanupEach_fs (ids : list string) :
  forall (w : World) (d : string),
    fs (cleanupEach ids w).2 !! d
    = if bool_decide (d ∈ map getSessionDir ids) then None else fs w !! d.
Proof.
  induction ids as [|i ids IH]; intros w d.
  - cbn [cleanupEach map]. case_bool_decide as Hd; [|reflexivity].
    now apply elem_of_nil in Hd.
  - cbn [cleanupEach map]. unfold bind, cleanupSessionFiles, fs_rm, rm.
    cbn [fst snd]. rewrite IH. cbn [fs].
    repeat case_bool_decide; try reflexivity.
    + match goal with H : d ∉ _ :: _ |- _ => destruct H; now right end.
    + destruct (decide (getSessionDir i = d)) as [<-|Hne].
      * apply lookup_delete_eq.
      * match goal with H : d ∈ _ :: _ |- _ =>
          apply elem_of_cons in H as [H|H]; congruence end.
    + apply lookup_delete_ne. intros <-.
      match goal with H : getSessionDir i ∉ _ :: _ |- _ => destruct H; left end.
Qed.

Lemma selectWhere_split_size (P : UploadSession -> bool) (t : Table) :
  (size (selectWhere P t) + size (selectWhere (fun s => negb (P s)) t))%nat
  = size t.
Proof.
  unfold selectWhere.
  rewrite <- (map_filter_union_complement (fun kv => Is_true (P kv.2)) t) at 3.
  rewrite map_size_disj_union by apply map_disjoint_filter_complement.
  f_equal. f_equal. apply map_filter_ext. intros i s _. simpl.
  destruct (P s); simpl; tauto.
Qed.

Lemma elem_of_found_dirs (P : UploadSession -> bool) (t : Table) (d : string) :
  d ∈ map getSessionDir (map (fun kv => sid kv.2) (map_to_list (selectWhere P t)))
  <-> exists i s, t !! i = Some s /\ P s = true /\ d = getSessionDir (sid s).
Proof.
  rewrite map_map. change (map ?f ?l) with (f <$> l). rewrite list_elem_of_fmap.
  split.
  - intros ([i s] & -> & Hin). apply elem_of_map_to_list in Hin.
    apply lookup_selectWhere in Hin as [Hin HP]. eauto.
  - intros (i & s & Hs & HP & ->). exists (i, s). split; [reflexivity|].
    apply elem_of_map_to_list, lookup_selectWhere. auto.
Qed.

(** X17. The sweep of expired sessions, on a consistent table, the clock
    not going backwards between its two queries.  It returns the number of
    rows it deleted.  A pending session past its deadline at the first
    query loses its row and its directory.  A session that is completed,
    or not past its deadline at the second query, keeps its row and its
    directory untouched: the sweep never removes a completed upload. *)
Theorem cleanupExpiredSessions_spec (w : World) (now1 now2 : Z) :
  Consistent w ->
  now1 <= now2 ->
  (cleanupExpiredSessions now1 now2 w).1
  = Ok (Z.of_nat (size (db w))
        - Z.of_nat (size (db (cleanupExpiredSessions now1 now2 w).2)))
  /\ (forall i s,
        db w !! i = Some s -> expiresAt s < now1 -> completedAt s = None ->
        db (cleanupExpiredSessions now1 now2 w).2 !! i = None
        /\ fs (cleanupExpiredSessions now1 now2 w).2 !! getSessionDir i = None)
  /\ (forall i s,
        db w !! i = Some s -> now2 <= expiresAt s \/ completedAt s <> None ->
        db (cleanupExpiredSessions now1 now2 w).2 !! i = Some s
        /\ fs (cleanupExpiredSessions now1 now2 w).2 !! getSessionDir i
           = fs w !! getSessionDir i).
Proof.
  intros Hw Hclock.
  pose proof (cleanupExpiredSessions_db now1 now2 w) as Hdb.
  assert (Hfs : forall d,
            fs (cleanupExpiredSessions now1 now2 w).2 !! d
            = if bool_decide
                   (d ∈ map getSessionDir
                          (map (fun kv => sid kv.2)
                               (map_to_list (selectWhere (expiredPending now1) (db w)))))
              then None else fs w !! d).
  { intros d. unfold cleanupExpiredSessions, bind, findMany. simpl.
    rewrite <- (cleanupEach_fs _ w d).
    destruct (cleanupEach_db
                (map (fun kv => sid kv.2)
                     (map_to_list (selectWhere (expiredPending now1) (db w)))) w)
      as [Hr _].
    destruct (cleanupEach _ w) as [[[]|e] w1]; simpl in *; [|discriminate].
    reflexivity. }
  split; [|split].
  - rewrite Hdb.
    pose proof (selectWhere_split_size (expiredPending now2) (db w)) as Hsize.
    unfold cleanupExpiredSessions, bind, findMany. simpl.
    destruct (cleanupEach_db
                (map (fun kv => sid kv.2)
                     (map_to_list (selectWhere (expiredPending now1) (db w)))) w)
      as [Hr Hdb1].
    destruct (cleanupEach _ w) as [[[]|e] w1]; simpl in *; [|discriminate].
    unfold deleteMany. simpl. rewrite Hdb1. f_equal. lia.
  - intros i s Hs Hexp Hpending. split.
    + rewrite Hdb. destruct (selectWhere _ _ !! i) as [s'|] eqn:E; [|reflexivity].
      apply lookup_selectWhere in E as [E HP]. rewrite Hs in E. injection E as <-.
      apply negb_true_iff in HP.
      assert (expiredPending now2 s = true)
        by (apply expiredPending_true; split; [lia | exact Hpending]).
      congruence.
    + rewrite Hfs. rewrite bool_decide_eq_true_2; [reflexivity|].
      apply elem_of_found_dirs. exists i, s. split; [exact Hs|].
      split; [apply expiredPending_true; auto|].
      destruct (Hw i s Hs) as [-> _]. reflexivity.
  - intros i s Hs Hkeep. split.
    + rewrite Hdb. apply lookup_selectWhere. split; [exact Hs|].
      apply negb_true_iff. destruct (expiredPending now2 s) eqn:E; [|reflexivity].
      apply expiredPending_true in E as [Hlt Hnone].
      destruct Hkeep as [Hge|Hdone]; [lia | contradiction].
    + rewrite Hfs. rewrite bool_decide_eq_false_2; [reflexivity|].
      intros Hin. apply elem_of_found_dirs in Hin as (j & s2 & Hs2 & HP & Hd).
      apply getSessionDir_inj in Hd.
      destruct (Hw j s2 Hs2) as [Hj _]. rewrite Hj in Hd. subst j.
      rewrite Hs in Hs2. injection Hs2 as <-.
      apply expiredPending_true in HP as [Hlt Hnone].
      destruct Hkeep as [Hge|Hdone]; [lia | contradiction].
Qed.

Lemma demoPartial_consistent : Consistent demoPartial.
Proof.
  assert (demoPartial
          = execAll [OpCreate "s1" 1000 demoParams;
                     OpStoreChunk "s1" 0 (bytes "abcd") (hashBuffer (bytes "abcd")) 2000;
                     OpStoreChunk "s1" 2 (bytes "ij") (hashBuffer (bytes "ij")) 3000]
                    emptyWorld) as -> by (vm_compute; reflexivity).
  apply execAll_consistent, Consistent_empty.
Qed.

(** The scenario left unfinished, swept after its deadline. *)
Lemma cleanupExpiredSessions_spec_witness :
  db (cleanupExpiredSessions 4000000 4000000 demoPartial).2 !! "s1" = None
  /\ fs (cleanupExpiredSessions 4000000 4000000 demoPartial).2 !! getSessionDir "s1"
     = None.
Proof.
  destruct (cleanupExpiredSessions_spec demoPartial 4000000 4000000)
    as (_ & Hgone & _).
  - exact demoPartial_consistent.
  - lia.
  - apply (Hgone "s1" (with_chunksReceived demoSession [0; 2])).
    + vm_compute. reflexivity.
    + simpl. lia.
    + reflexivity.
Defined.

(** The shape both sweeps have: find, remove the files, delete. *)
Lemma sweep_shape (P1 P2 : UploadSession -> bool) (w : World) :
  let r := (let* ids := findMany P1 in do cleanupEach ids in deleteMany P2) w in
  r.1 = Ok (Z.of_nat (size (selectWhere P2 (db w))))
  /\ db r.2 = selectWhere (fun s => negb (P2 s)) (db w)
  /\ forall d,
       fs r.2 !! d
       = if bool_decide
              (d ∈ map getSessionDir
                     (map (fun kv => sid kv.2) (map_to_list (selectWhere P1 (db w)))))
         then None else fs w !! d.
Proof.
  unfold bind, findMany. simpl.
  pose proof (cleanupEach_fs
                (map (fun kv => sid kv.2) (map_to_list (selectWhere P1 (db w)))) w)
    as Hfs.
  destruct (cleanupEach_db
              (map (fun kv => sid kv.2) (map_to_list (selectWhere P1 (db w)))) w)
    as [Hr Hdb].
  destruct (cleanupEach _ w) as [[[]|e] w1]; simpl in *; [|discriminate].
  unfold deleteMany. simpl. rewrite Hdb. auto.
Qed.

Lemma completedBefore_true (cutoff : Z) (s : UploadSession) :
  completedBefore cutoff s = true
  <-> exists t, completedAt s = Some t /\ t < cutoff.
Proof.
  unfold completedBefore. destruct (completedAt s) as [t|].
  - rewrite Z.ltb_lt. split; [eauto | now intros (t' & [= <-] & H)].
  - split; [discriminate | now intros (t' & H & _)].
Qed.

(** X18. The sweep of completed sessions removes the rows completed
    strictly more than twenty-four hours (86400000 ms) before the clock,
    and their directories, and returns their number.  A pending session is
    never removed by it, however old, and a session completed exactly
    twenty-four hours ago is kept; what is kept keeps its directory. *)
Theorem cleanupCompletedSessions_spec (w : World) (now : Z) :
  Consistent w ->
  (cleanupCompletedSessions now w).1
  = Ok (Z.of_nat (size (db w))
        - Z.of_nat (size (db (cleanupCompletedSessions now w).2)))
  /\ (forall i s,
        db w !! i = Some s ->
        (exists t, completedAt s = Some t /\ t < now - 86400000) ->
        db (cleanupCompletedSessions now w).2 !! i = None
        /\ fs (cleanupCompletedSessions now w).2 !! getSessionDir i = None)
  /\ (forall i s,
        db w !! i = Some s ->
        (completedAt s = None
         \/ exists t, completedAt s = Some t /\ now - 86400000 <= t) ->
        db (cleanupCompletedSessions now w).2 !! i = Some s
        /\ fs (cleanupCompletedSessions now w).2 !! getSessionDir i
           = fs w !! getSessionDir i).
Proof.
  intros Hw.
  destruct (sweep_shape (completedBefore (now - 24 * 60 * 60 * 1000))
              (completedBefore (now - 24 * 60 * 60 * 1000)) w)
    as (Hr & Hdb & Hfs).
  change (cleanupCompletedSessions now w)
    with ((let* ids := findMany (completedBefore (now - 24 * 60 * 60 * 1000)) in
           do cleanupEach ids in
           deleteMany (completedBefore (now - 24 * 60 * 60 * 1000))) w).
  cbv zeta in Hr, Hdb, Hfs.
  change (24 * 60 * 60 * 1000) with 86400000 in *.
  split; [|split].
  - rewrite Hr, Hdb.
    pose proof (selectWhere_split_size (completedBefore (now - 86400000)) (db w)).
    f_equal. lia.
  - intros i s Hs Hold. apply completedBefore_true in Hold. split.
    + rewrite Hdb. destruct (selectWhere _ _ !! i) as [s'|] eqn:E; [|reflexivity].
      apply lookup_selectWhere in E as [E HP]. rewrite Hs in E. injection E as <-.
      apply negb_true_iff in HP. congruence.
    + rewrite Hfs. rewrite bool_decide_eq_true_2; [reflexivity|].
      apply elem_of_found_dirs. exists i, s. split; [exact Hs|].
      split; [exact Hold|]. destruct (Hw i s Hs) as [-> _]. reflexivity.
  - intros i s Hs Hkeep.
    assert (Hnot : completedBefore (now - 86400000) s = false).
    { destruct (completedBefore (now - 86400000) s) eqn:E; [|reflexivity].
      apply completedBefore_true in E as (t & Ht & Hlt).
      destruct Hkeep as [Hnone|(t' & Ht' & Hge)]; [congruence|].
      rewrite Ht in Ht'. injection Ht' as <-. lia. }
    split.
    + rewrite Hdb. apply lookup_selectWhere. split; [exact Hs|].
      now apply negb_true_iff.
    + rewrite Hfs. rewrite bool_decide_eq_false_2; [reflexivity|].
      intros Hin. apply elem_of_found_dirs in Hin as (j & s2 & Hs2 & HP & Hd).
      apply getSessionDir_inj in Hd.
      destruct (Hw j s2 Hs2) as [Hj _]. rewrite Hj in Hd. subst j.
      rewrite Hs in Hs2. injection Hs2 as <-. congruence.
Qed.

Lemma demoCompleted_consistent : Consistent demoCompleted.
Proof.
  assert (demoCompleted
          = execAll [OpCreate "s1" 1000 demoParams;
                     OpStoreChunk "s1" 0 (bytes "abcd") (hashBuffer (bytes "abcd")) 2000;
                     OpStoreChunk "s1" 2 (bytes "ij") (hashBuffer (bytes "ij")) 3000;
                     OpStoreChunk "s1" 1 (bytes "efgh") (hashBuffer (bytes "efgh")) 4000;
                     OpReassemble "s1" 5000]
                    emptyWorld) as -> by (vm_compute; reflexivity).
  apply execAll_consistent, Consistent_empty.
Qed.

(** The scenario, completed at 5000: kept by a sweep exactly twenty-four
    hours later, removed by a sweep one millisecond after that. *)
Lemma cleanupCompletedSessions_spec_witness :
  is_Some (db (cleanupCompletedSessions 86405000 demoCompleted).2 !! "s1")
  /\ db (cleanupCompletedSessions 86405001 demoCompleted).2 !! "s1" = None.
Proof.
  split.
  - destruct (cleanupCompletedSessions_spec demoCompleted 86405000)
      as (_ & _ & Hkept); [exact demoCompleted_consistent|].
    destruct (Hkept "s1" (with_completedAt (with_chunksReceived demoSession [0; 1; 2])
                            (Some 5000))) as [Hrow _].
    + vm_compute. reflexivity.
    + right. exists 5000. split; [reflexivity | lia].
    + rewrite Hrow. eauto.
  - destruct (cleanupCompletedSessions_spec demoCompleted 86405001)
      as (_ & Hgone & _); [exact demoCompleted_consistent|].
    apply (Hgone "s1" (with_completedAt (with_chunksReceived demoSession [0; 1; 2])
                         (Some 5000))).
    + vm_compute. reflexivity.
    + exists 5000. split; [reflexivity | lia].
Defined.

(** X19. [triggerCleanup] runs the sweep of expired sessions, then the
    sweep of completed ones, and returns the two counts: they add up to
    the number of rows that left the table, and the rows that remain are
    those that were neither pending past their deadline nor completed
    more than twenty-four hours before. *)
Theorem triggerCleanup_spec (w : World) (now1 now2 now3 : Z) :
  exists expired completed,
    (triggerCleanup now1 now2 now3 w).1 = Ok (expired, completed)
    /\ expired = Z.of_nat (size (selectWhere (expiredPending now2) (db w)))
    /\ 0 <= completed
    /\ expired + completed
       = Z.of_nat (size (db w))
         - Z.of_nat (size (db (triggerCleanup now1 now2 now3 w).2))
    /\ forall i s,
         db (triggerCleanup now1 now2 now3 w).2 !! i = Some s
         <-> db w !! i = Some s
             /\ ~ (expiresAt s < now2 /\ completedAt s = None)
             /\ ~ (exists t, completedAt s = Some t /\ t < now3 - 86400000).
Proof.
  destruct (sweep_shape (expiredPending now1) (expiredPending now2) w)
    as (Hr1 & Hdb1 & _).
  cbv zeta in Hr1, Hdb1.
  change ((let* ids := findMany (expiredPending now1) in
           do cleanupEach ids in deleteMany (expiredPending now2)) w)
    with (cleanupExpiredSessions now1 now2 w) in Hr1, Hdb1.
  unfold triggerCleanup, bind, ret.
  destruct (cleanupExpiredSessions now1 now2 w) as [r1 w1]. simpl in Hr1, Hdb1.
  subst r1.
  destruct (sweep_shape (completedBefore (now3 - 24 * 60 * 60 * 1000))
              (completedBefore (now3 - 24 * 60 * 60 * 1000)) w1)
    as (Hr2 & Hdb2 & _).
  cbv zeta in Hr2, Hdb2.
  change ((let* ids := findMany (completedBefore (now3 - 24 * 60 * 60 * 1000)) in
           do cleanupEach ids in
           deleteMany (completedBefore (now3 - 24 * 60 * 60 * 1000))) w1)
    with (cleanupCompletedSessions now3 w1) in Hr2, Hdb2.
  change (24 * 60 * 60 * 1000) with 86400000 in *.
  destruct (cleanupCompletedSessions now3 w1) as [r2 w2].
  simpl in Hr2, Hdb2. subst r2. simpl.
  eexists _, _. split; [reflexivity|]. split; [reflexivity|]. split; [lia|].
  split.
  - rewrite Hdb2, Hdb1.
    pose proof (selectWhere_split_size (expiredPending now2) (db w)).
    pose proof (selectWhere_split_size (completedBefore (now3 - 86400000)) (db w1)).
    rewrite Hdb1 in *. lia.
  - intros i s. rewrite Hdb2, lookup_selectWhere, Hdb1, lookup_selectWhere.
    rewrite !negb_true_iff, <- !not_true_iff_false.
    rewrite expiredPending_true, completedBefore_true. tauto.
Qed.

(** ** The chunk route *)

Lemma uploadChunk_proceeds (w : World) user sessionId session chunkIndex
    expectedHash data now1 now2 :
  0 <= chunkIndex ->
  isValidHash expectedHash = true ->
  db w !! sessionId = Some session ->
  userId session = user ->
  now1 <= expiresAt session ->
  data <> [] ->
  uploadChunk user sessionId (Some chunkIndex) (Some expectedHash) (Some data)
    now1 now2 w
  = match storeChunk sessionId chunkIndex data expectedHash now2 w with
    | (Ok result, w') =>
        (ChunkStored (mkChunkUploadResponse chunkIndex (sc_verified result)
                        (sc_chunksReceived result) (sc_chunksRemaining result)), w')
    | (Err (ChunkHashMismatchError expected received), w') =>
        (ChunkHashMismatch expected received true, w')
    | (Err (SessionExpiredError i), w') =>
        (ChunkRefused 410 "SESSION_EXPIRED"
           ("Upload session has expired: " ++ i)%string, w')
    | (Err e, w') => (ChunkThrown e, w')
    end.
Proof.
  intros Hidx Hhash Hs Huser Hexp Hdata. unfold uploadChunk.
  destruct (Z.ltb_spec chunkIndex 0); [lia|].
  rewrite Hhash.
  assert (String.eqb expectedHash "" = false) as ->.
  { apply String.eqb_neq. intros ->. vm_compute in Hhash. discriminate. }
  simpl. unfold getSessionStatus, findUnique. simpl. rewrite Hs.
  rewrite (proj2 (String.eqb_eq _ _) Huser). simpl.
  destruct (Z.ltb_spec (expiresAt session) now1); [lia|].
  destruct data; [congruence|]. reflexivity.
Qed.

(** X20. Only the owner of a session can store a chunk in it.  A request
    of the chunk route made by another user on an existing session is
    refused with status 400 or 403, whatever index, hash, body and clocks
    it comes with, and changes nothing. *)
Theorem uploadChunk_owner_only (w : World) (user sessionId : string)
    (session : UploadSession) (chunkIndex : option Z)
    (expectedHash : option string) (body : option (list byte)) (now1 now2 : Z) :
  db w !! sessionId = Some session ->
  userId session <> user ->
  exists status code message,
    uploadChunk user sessionId chunkIndex expectedHash body now1 now2 w
    = (ChunkRefused status code message, w)
    /\ (status = 400 \/ status = 403)
    /\ (forall i h, chunkIndex = Some i -> 0 <= i -> expectedHash = Some h ->
                    isValidHash h = true ->
                    status = 403 /\ code = "FORBIDDEN"%string).
Proof.
  intros Hs Huser. unfold uploadChunk.
  destruct chunkIndex as [i|];
    [|eexists _, _, _; split; [reflexivity|]; split; [auto | discriminate]].
  destruct (Z.ltb_spec i 0).
  { eexists _, _, _. split; [reflexivity|]. split; [auto|].
    intros i' h [= <-] Hi. lia. }
  destruct expectedHash as [h|];
    [|eexists _, _, _; split; [reflexivity|]; split; [auto | discriminate]].
  destruct (String.eqb h "" || negb (isValidHash h)) eqn:Hbad.
  { eexists _, _, _. split; [reflexivity|]. split; [auto|].
    intros i' h' _ _ [= <-] Hvalid. rewrite Hvalid, orb_false_r in Hbad.
    apply String.eqb_eq in Hbad. subst h. vm_compute in Hvalid. discriminate. }
  unfold getSessionStatus, findUnique. simpl. rewrite Hs.
  assert (String.eqb (userId session) user = false) as ->
    by now apply String.eqb_neq.
  simpl. eexists _, _, _. split; [reflexivity|]. auto.
Qed.

Lemma uploadChunk_owner_only_witness :
  exists status code message,
    uploadChunk "user-2" "s1" (Some 1) (Some (hashBuffer (bytes "efgh")))
      (Some (bytes "efgh")) 3500 3501 demoPartial
    = (ChunkRefused status code message, demoPartial)
    /\ (status = 400 \/ status = 403).
Proof.
  destruct (uploadChunk_owner_only demoPartial "user-2" "s1"
              (with_chunksReceived demoSession [0; 2]) (Some 1)
              (Some (hashBuffer (bytes "efgh"))) (Some (bytes "efgh")) 3500 3501)
    as (status & code & message & Hrun & Hstatus & _).
  - vm_compute. reflexivity.
  - simpl. discriminate.
  - exists status, code, message. auto.
Defined.

(** X21. The chunk route changes the world only when it answers with the
    stored response, and then [storeChunk] has succeeded for a non-empty
    body sent by the owner with a well-formed hash, and the response
    repeats the index and the counts of [storeChunk].  A hash mismatch is
    answered with the claimed hash, the hash of the body and
    [retryable: true]; what the route lets through as an exception is the
    service's invalid-index error or a failed write, never a session not
    found. *)
Theorem uploadChunk_outcomes (w : World) (user sessionId : string)
    (chunkIndex : option Z) (expectedHash : option string)
    (body : option (list byte)) (now1 now2 : Z) :
  match (uploadChunk user sessionId chunkIndex expectedHash body now1 now2 w).1 with
  | ChunkStored response =>
      exists i h data result session,
        chunkIndex = Some i /\ expectedHash = Some h /\ body = Some data
        /\ data <> [] /\ isValidHash h = true
        /\ db w !! sessionId = Some session /\ userId session = user
        /\ storeChunk sessionId i data h now2 w
           = (Ok result,
              (uploadChunk user sessionId chunkIndex expectedHash body now1 now2 w).2)
        /\ response = mkChunkUploadResponse i true (sc_chunksReceived result)
                        (sc_chunksRemaining result)
  | ChunkHashMismatch expected received retryable =>
      (uploadChunk user sessionId chunkIndex expectedHash body now1 now2 w).2 = w
      /\ expectedHash = Some expected
      /\ (exists data, body = Some data /\ received = hashBuffer data)
      /\ retryable = true
  | ChunkThrown e =>
      (uploadChunk user sessionId chunkIndex expectedHash body now1 now2 w).2 = w
      /\ ((exists message, e = GenericError message) \/ e = FsError "ENOENT")
  | ChunkRefused status code message =>
      (uploadChunk user sessionId chunkIndex expectedHash body now1 now2 w).2 = w
      /\ (status = 400 \/ status = 403 \/ status = 404 \/ status = 410)
  end.
Proof.
  unfold uploadChunk.
  destruct chunkIndex as [i|]; [|simpl; auto].
  destruct (Z.ltb_spec i 0); [simpl; auto|].
  destruct expectedHash as [h|]; [|simpl; auto].
  destruct (String.eqb h "") eqn:Hempty; [simpl; auto|].
  destruct (isValidHash h) eqn:Hvalid; [|simpl; auto]. simpl.
  unfold getSessionStatus, findUnique. simpl.
  destruct (db w !! sessionId) as [session|] eqn:Hs; [|simpl; auto 6].
  destruct (String.eqb (userId session) user) eqn:Huser; [|simpl; auto 6].
  apply String.eqb_eq in Huser. simpl.
  destruct (Z.ltb_spec (expiresAt session) now1); [simpl; auto 6|].
  destruct body as [data|]; [|simpl; auto].
  destruct data as [|b data]; [simpl; auto|]. cbn [length Nat.eqb].
  destruct (storeChunk sessionId i (b :: data) h now2 w) as [[result|e] w'] eqn:Hrun.
  - simpl. pose proof Hrun as Hinv. apply storeChunk_Ok_inv in Hinv
      as (s0 & files & _ & _ & _ & _ & _ & Hresult & _).
    exists i, h, (b :: data), result, session.
    repeat (split; [try reflexivity; try assumption; try discriminate|]).
    now rewrite Hresult.
  - pose proof Hrun as Hfail.
    apply storeChunk_failure_kinds in Hfail as [-> Hkind].
    destruct Hkind as [->|[->|[[m ->]|[->| ->]]]]; simpl.
    + exfalso. rewrite (storeChunk_cases w sessionId session) in Hrun by assumption.
      destruct (expiresAt session <? now2); [discriminate|].
      destruct (_ || _); [discriminate|].
      destruct (negb _); [discriminate|].
      destruct (fs w !! getSessionDir sessionId); discriminate.
    + auto 6.
    + eauto.
    + eauto 6.
    + auto.
Qed.

(** X22. The route tests the deadline and [storeChunk] tests it again,
    each on its own reading of the clock.  Whichever of the two finds the
    session expired, the owner's request is answered with status 410 and
    nothing is stored; the message is the route's when the deadline had
    passed at the first reading, the service's when it passed between the
    two. *)
Theorem uploadChunk_expired (w : World) (user sessionId : string)
    (session : UploadSession) (chunkIndex : Z) (expectedHash : string)
    (data : list byte) (now1 now2 : Z) :
  db w !! sessionId = Some session ->
  userId session = user ->
  0 <= chunkIndex ->
  isValidHash expectedHash = true ->
  data <> [] ->
  now1 <= now2 ->
  expiresAt session < now2 ->
  uploadChunk user sessionId (Some chunkIndex) (Some expectedHash) (Some data)
    now1 now2 w
  = (ChunkRefused 410 "SESSION_EXPIRED"
       (if (expiresAt session <? now1)%Z then "Upload session has expired"%string
        else ("Upload session has expired: " ++ sessionId)%string), w).
Proof.
  intros Hs Huser Hidx Hhash Hdata Hclock Hexp.
  destruct (Z.ltb_spec (expiresAt session) now1) as [Hlt|Hge].
  - unfold uploadChunk. destruct (Z.ltb_spec chunkIndex 0); [lia|].
    rewrite Hhash.
    assert (String.eqb expectedHash "" = false) as ->.
    { apply String.eqb_neq. intros ->. vm_compute in Hhash. discriminate. }
    simpl. unfold getSessionStatus, findUnique. simpl. rewrite Hs.
    rewrite (proj2 (String.eqb_eq _ _) Huser). simpl.
    destruct (Z.ltb_spec (expiresAt session) now1); [reflexivity | lia].
  - rewrite (uploadChunk_proceeds w user sessionId session) by assumption.
    rewrite (storeChunk_cases w sessionId session) by assumption.
    destruct (Z.ltb_spec (expiresAt session) now2); [reflexivity | lia].
Qed.

Lemma uploadChunk_expired_witness :
  uploadChunk "user-1" "s1" (Some 1) (Some (hashBuffer (bytes "efgh")))
    (Some (bytes "efgh")) 3601000 3601001 demoPartial
  = (ChunkRefused 410 "SESSION_EXPIRED" "Upload session has expired: s1", demoPartial).
Proof.
  apply (uploadChunk_expired demoPartial "user-1" "s1"
           (with_chunksReceived demoSession [0; 2]) 1 (hashBuffer (bytes "efgh"))
           (bytes "efgh") 3601000 3601001).
  - vm_compute. reflexivity.
  - reflexivity.
  - lia.
  - vm_compute. reflexivity.
  - simpl. discriminate.
  - lia.
  - simpl. lia.
Defined.

(** ** The complete route *)


Section CompleteRouteProperties.

Variable processIcons : string -> string -> string -> list byte -> Result Z.
Variable processItems : string -> list byte -> Result Z.




(** X25. What the complete route refuses.  A user who is not the owner is
    answered 403 and nothing happens.  The owner of a session that still
    misses chunks is answered with exactly the list [getMissingChunks]
    gives, and nothing happens.  The owner of a session whose bytes do not
    hash to [finalHash] is answered with the final hash mismatch, and the
    row is left pending as it was. *)
Theorem uploadComplete_refusals (w : World) (user slug version sessionId : string)
    (session : UploadSession) (now : Z) :
  db w !! sessionId = Some session ->
  (userId session <> user ->
   uploadComplete processIcons processItems user slug version sessionId now w
   = (CompleteRefused 403 "FORBIDDEN", w))
  /\ (userId session = user -> getMissingChunks session <> [] ->
      uploadComplete processIcons processItems user slug version sessionId now w
      = (CompleteChunksMissing (getMissingChunks session), w))
  /\ (userId session = user ->
      (forall k, 0 <= k < totalChunks session -> k ∈ chunksReceived session) ->
      forall chunks files,
        (readChunks sessionId 0 (Z.to_nat (totalChunks session)) [] w).1 = Ok chunks ->
        fs w !! getSessionDir sessionId = Some files ->
        hashBuffer (concat chunks) <> finalHash session ->
        (uploadComplete processIcons processItems user slug version sessionId now w).1
        = CompleteHashMismatch
        /\ db (uploadComplete processIcons processItems user slug version
                 sessionId now w).2 = db w).
Proof.
  intros Hs. unfold uploadComplete, getSessionStatus, findUnique. simpl.
  rewrite Hs. split; [|split].
  - intros Huser. now rewrite (proj2 (String.eqb_neq _ _) Huser).
  - intros Huser Hmissing. rewrite (proj2 (String.eqb_eq _ _) Huser). simpl.
    rewrite (reassembleAndVerify_cases w sessionId session now Hs).
    now rewrite (proj2 (length_pos_nonnil _) Hmissing).
  - intros Huser Hall chunks files Hread Hdir Hhash.
    rewrite (proj2 (String.eqb_eq _ _) Huser). simpl.
    now rewrite (reassembleAndVerify_fails w sessionId session chunks now files
                   Hs Hall Hread Hdir Hhash).
Qed.

End CompleteRouteProperties.

(** The scenarios below run the route with a processor that counts the
    bytes it is given, or with one that throws. *)

Lemma demoUploaded_all_received :
  forall k, 0 <= k < totalChunks (with_chunksReceived demoSession [0; 1; 2]) ->
            k ∈ chunksReceived (with_chunksReceived demoSession [0; 1; 2]).
Proof.
  intros k Hk. simpl in Hk.
  assert (Hcases : k = 0 \/ k = 1 \/ k = 2) by lia. clear Hk.
  destruct Hcases as [-> | [-> | ->]]; simpl; set_solver.
Qed.



Lemma uploadComplete_refusals_witness :
  uploadComplete (fun _ _ _ content => Ok (Z.of_nat (length content)))
    (fun _ content => Ok (Z.of_nat (length content)))
    "user-2" "pack" "1.0" "s1" 5000 demoPartial
  = (CompleteRefused 403 "FORBIDDEN", demoPartial)
  /\ uploadComplete (fun _ _ _ content => Ok (Z.of_nat (length content)))
       (fun _ content => Ok (Z.of_nat (length content)))
       "user-1" "pack" "1.0" "s1" 5000 demoPartial
     = (CompleteChunksMissing [1], demoPartial)
  /\ (uploadComplete (fun _ _ _ content => Ok (Z.of_nat (length content)))
        (fun _ content => Ok (Z.of_nat (length content)))
        "user-1" "pack" "1.0" "s1" 5000 corruptUploaded).1
     = CompleteHashMismatch.
Proof.
  split; [|split].
  - apply (uploadComplete_refusals
             (fun _ _ _ content => Ok (Z.of_nat (length content)))
             (fun _ content => Ok (Z.of_nat (length content)))
             demoPartial "user-2" "pack" "1.0" "s1"
             (with_chunksReceived demoSession [0; 2]) 5000).
    + vm_compute. reflexivity.
    + simpl. discriminate.
  - apply (uploadComplete_refusals
             (fun _ _ _ content => Ok (Z.of_nat (length content)))
             (fun _ content => Ok (Z.of_nat (length content)))
             demoPartial "user-1" "pack" "1.0" "s1"
             (with_chunksReceived demoSession [0; 2]) 5000).
    + vm_compute. reflexivity.
    + reflexivity.
    + vm_compute. discriminate.
  - eapply (uploadComplete_refusals
              (fun _ _ _ content => Ok (Z.of_nat (length content)))
              (fun _ content => Ok (Z.of_nat (length content)))
              corruptUploaded "user-1" "pack" "1.0" "s1"
              (with_chunksReceived demoSession [0; 1; 2]) 5000).
    + vm_compute. reflexivity.
    + reflexivity.
    + exact demoUploaded_all_received.
    + instantiate (1 := [bytes "abcd"; bytes "efgX"; bytes "ij"]).
      vm_compute. reflexivity.
    + vm_compute. reflexivity.
    + vm_compute. discriminate.
Defined.

(** ** The status route *)

Lemma received_missing_partition (received : list Z) (n : Z) :
  NoDup received ->
  (forall k, k ∈ received -> 0 <= k < n) ->
  received ++ filter (fun k => k ∉ received) (seqZ 0 n) ≡ₚ seqZ 0 n.
Proof.
  intros Hnd Hrange.
  assert (Hperm : filter (fun k => k ∈ received) (seqZ 0 n) ≡ₚ received).
  { apply NoDup_Permutation; [apply NoDup_filter, NoDup_seqZ | exact Hnd |].
    intros k. rewrite list_elem_of_filter, elem_of_seqZ. split; [tauto|].
    intros Hk. split; [exact Hk|]. specialize (Hrange k Hk). lia. }
  rewrite <- Hperm at 1.
  apply (filter_app_complement (fun k => k ∈ received) (seqZ 0 n)).
Qed.

(** X26. What the status route reports, to any authenticated user (the
    owner is not checked).  In a consistent table, an unknown id is
    answered 404; for a known one the response carries the id asked for,
    and its two lists, both in strictly ascending order, split the indices
    [0 .. totalChunks - 1] between them: every index is in exactly one of
    [chunksReceived] and [chunksMissing]. *)
Theorem uploadStatus_partition (w : World) (sessionId : string) :
  Consistent w ->
  match uploadStatus sessionId w with
  | Sent status code =>
      db w !! sessionId = None /\ status = 404 /\ code = "SESSION_NOT_FOUND"%string
  | Returned response =>
      st_sessionId response = sessionId
      /\ StronglySorted Z.lt (st_chunksReceived response)
      /\ StronglySorted Z.lt (st_chunksMissing response)
      /\ st_chunksReceived response ++ st_chunksMissing response
         ≡ₚ seqZ 0 (st_totalChunks response)
  end.
Proof.
  intros Hw. unfold uploadStatus, getSessionStatus, findUnique. simpl.
  destruct (db w !! sessionId) as [session|] eqn:Hs; [|auto].
  destruct (Hw sessionId session Hs) as (Hid & Hsorted & Hrange & _). simpl.
  split; [exact Hid|]. split; [exact Hsorted|].
  split; [apply getMissingChunks_sorted|].
  rewrite getMissingChunks_filter.
  apply received_missing_partition; [|exact Hrange].
  now apply StronglySorted_lt_NoDup.
Qed.

Lemma uploadStatus_partition_witness :
  match uploadStatus "s1" demoPartial with
  | Sent status code =>
      db demoPartial !! "s1" = None /\ status = 404
      /\ code = "SESSION_NOT_FOUND"%string
  | Returned response =>
      st_sessionId response = "s1"%string
      /\ StronglySorted Z.lt (st_chunksReceived response)
      /\ StronglySorted Z.lt (st_chunksMissing response)
      /\ st_chunksReceived response ++ st_chunksMissing response
         ≡ₚ seqZ 0 (st_totalChunks response)
  end.
Proof.
  apply (uploadStatus_partition demoPartial "s1"). exact demoPartial_consistent.
Defined.

(** ** The item id of an icon file *)

Lemma indexOf_append (c : ascii) (s t : string) :
  indexOf c s = None ->
  indexOf c (s ++ String c t) = Some (String.length s).
Proof.
  induction s as [|a s IH]; intros Hs.
  - change (indexOf c (String c t) = Some 0%nat). simpl.
    now rewrite Ascii.eqb_refl.
  - rewrite append_String. simpl in *.
    destruct (Ascii.eqb a c); [discriminate|].
    destruct (indexOf c s); [discriminate|]. now rewrite IH.
Qed.

Lemma substring_all (s : string) : substring 0 (String.length s) s = s.
Proof. induction s as [|a s IH]; simpl; [reflexivity | now rewrite IH]. Qed.

Lemma substring_prefix (s t : string) :
  substring 0 (String.length s) (s ++ t) = s.
Proof.
  induction s as [|a s IH].
  - change (substring 0 0 t = ""%string). now destruct t.
  - rewrite append_String. simpl. now rewrite IH.
Qed.

Lemma substring_after (c : ascii) (s t : string) :
  substring (String.length s + 1)
            (String.length (s ++ String c t) - (String.length s + 1))
            (s ++ String c t) = t.
Proof.
  induction s as [|a s IH].
  - change (substring 0 (String.length t - 0) t = t).
    rewrite Nat.sub_0_r. apply substring_all.
  - rewrite append_String. simpl. exact IH.
Qed.

Lemma itemIdOfName_split (namespace path : string) :
  indexOf "_" namespace = None ->
  itemIdOfName (namespace ++ "_" ++ path) = (namespace ++ ":" ++ path)%string.
Proof.
  intros Hns. unfold itemIdOfName.
  change ("_" ++ path)%string with (String "_" path).
  rewrite (indexOf_append "_" namespace path Hns). cbv zeta.
  rewrite substring_prefix, substring_after. reflexivity.
Qed.

(** X27. The item id of an icon file is its name without the extension,
    split at the first underscore only: the part before it is the
    namespace, everything after it is the path, underscores included.  A
    name without an underscore is its own id.  (So a namespace that itself
    has an underscore cannot come back: the split takes its first word.) *)
Theorem filenameToItemId_first_underscore
    (basename : string -> string -> string) (extname : string -> string)
    (filename namespace path : string) :
  indexOf "_" namespace = None ->
  (basename filename (extname filename) = (namespace ++ "_" ++ path)%string ->
   filenameToItemId basename extname filename = (namespace ++ ":" ++ path)%string)
  /\ (basename filename (extname filename) = namespace ->
      filenameToItemId basename extname filename = namespace).
Proof.
  intros Hns. unfold filenameToItemId. split; intros ->.
  - now apply itemIdOfName_split.
  - unfold itemIdOfName. now rewrite Hns.
Qed.

(** The scenario takes, for [basename] and [extname], functions that agree
    with Node's on a plain file name ending in [.png]. *)
Lemma filenameToItemId_first_underscore_witness :
  filenameToItemId
    (fun filename ext =>
       substring 0 (String.length filename - String.length ext) filename)
    (fun _ => ".png"%string)
    "gtceu_sodium_hydroxide_dust.png"
  = "gtceu:sodium_hydroxide_dust"%string.
Proof.
  apply (filenameToItemId_first_underscore
           (fun filename ext =>
              substring 0 (String.length filename - String.length ext) filename)
           (fun _ => ".png"%string)
           "gtceu_sodium_hydroxide_dust.png" "gtceu" "sodium_hydroxide_dust").
  - reflexivity.
  - reflexivity.
Defined.

(** ** Directories the sweeps leave behind *)

Lemma cleanupExpiredSessions_sweep (now1 now2 : Z) (w : World) :
  cleanupExpiredSessions now1 now2 w
  = sweep (expiredPending now1) (expiredPending now2) w.
Proof. reflexivity. Qed.

Lemma cleanupCompletedSessions_sweep (now : Z) (w : World) :
  cleanupCompletedSessions now w
  = sweep (completedBefore (now - 86400000)) (completedBefore (now - 86400000)) w.
Proof. reflexivity. Qed.

Lemma sweep_db (P1 P2 : UploadSession -> bool) (w : World) (i : string) :
  db w !! i = None -> db (sweep P1 P2 w).2 !! i = None.
Proof.
  intros Hnone. destruct (sweep_shape P1 P2 w) as (_ & Hdb & _).
  cbv zeta in Hdb. fold (sweep P1 P2) in Hdb. rewrite Hdb.
  destruct (selectWhere _ _ !! i) as [s|] eqn:E; [|reflexivity].
  apply lookup_selectWhere in E as [E _]. congruence.
Qed.

Lemma sweep_consistent (P1 P2 : UploadSession -> bool) (w : World) :
  Consistent w -> Consistent (sweep P1 P2 w).2.
Proof.
  intros Hw i s Hs. destruct (sweep_shape P1 P2 w) as (_ & Hdb & _).
  cbv zeta in Hdb. fold (sweep P1 P2) in Hdb. rewrite Hdb in Hs.
  apply lookup_selectWhere in Hs as [Hs _]. exact (Hw i s Hs).
Qed.

(** A sweep removes the directories of the sessions its first query
    finds, and no other. *)
Lemma sweep_keeps_dir (P1 P2 : UploadSession -> bool) (w : World) (i : string) :
  Consistent w ->
  (forall s, db w !! i = Some s -> P1 s = false) ->
  fs (sweep P1 P2 w).2 !! getSessionDir i = fs w !! getSessionDir i.
Proof.
  intros Hw Hi. destruct (sweep_shape P1 P2 w) as (_ & _ & Hfs).
  cbv zeta in Hfs. fold (sweep P1 P2) in Hfs. rewrite Hfs.
  rewrite bool_decide_eq_false_2; [reflexivity|].
  intros Hin. apply elem_of_found_dirs in Hin as (j & s & Hs & HP & Hd).
  apply getSessionDir_inj in Hd. destruct (Hw j s Hs) as [Hj _].
  rewrite Hj in Hd. subst j. specialize (Hi s Hs). congruence.
Qed.

(** X28. The sweep of expired sessions can orphan a directory.  A pending
    session whose deadline passes between the two queries of the sweep is
    not found by the first, so its files are not removed, and is deleted
    by the second: its row is gone and its directory is as it was.  No
    later sweep removes that directory, since the sweeps find directories
    through the rows. *)
Theorem cleanupExpiredSessions_orphans (w : World) (now1 now2 : Z) (i : string)
    (s : UploadSession) :
  Consistent w ->
  db w !! i = Some s ->
  completedAt s = None ->
  now1 <= expiresAt s < now2 ->
  db (cleanupExpiredSessions now1 now2 w).2 !! i = None
  /\ fs (cleanupExpiredSessions now1 now2 w).2 !! getSessionDir i
     = fs w !! getSessionDir i
  /\ forall t1 t2 t3,
       fs (triggerCleanup t1 t2 t3 (cleanupExpiredSessions now1 now2 w).2).2
         !! getSessionDir i
       = fs w !! getSessionDir i.
Proof.
  intros Hw Hs Hpending Hrace.
  assert (Hgone : db (cleanupExpiredSessions now1 now2 w).2 !! i = None).
  { destruct (sweep_shape (expiredPending now1) (expiredPending now2) w)
      as (_ & Hdb & _).
    cbv zeta in Hdb. fold (sweep (expiredPending now1) (expiredPending now2)) in Hdb.
    rewrite cleanupExpiredSessions_sweep, Hdb.
    destruct (selectWhere _ _ !! i) as [s'|] eqn:E; [|reflexivity].
    apply lookup_selectWhere in E as [E HP]. rewrite Hs in E. injection E as <-.
    apply negb_true_iff in HP.
    assert (expiredPending now2 s = true)
      by (apply expiredPending_true; split; [lia | exact Hpending]).
    congruence. }
  assert (Hkept : fs (cleanupExpiredSessions now1 now2 w).2 !! getSessionDir i
                  = fs w !! getSessionDir i).
  { rewrite cleanupExpiredSessions_sweep. apply sweep_keeps_dir; [exact Hw|].
    intros s' Hs'. rewrite Hs in Hs'. injection Hs' as <-.
    destruct (expiredPending now1 s) eqn:E; [|reflexivity].
    apply expiredPending_true in E as [Hlt _]. lia. }
  split; [exact Hgone|]. split; [exact Hkept|].
  intros t1 t2 t3. rewrite <- Hkept.
  assert (Hw1 : Consistent (cleanupExpiredSessions now1 now2 w).2)
    by (rewrite cleanupExpiredSessions_sweep; now apply sweep_consistent).
  destruct (cleanupExpiredSessions now1 now2 w) as [r1 w1]. simpl in *.
  unfold triggerCleanup, bind, ret.
  rewrite cleanupExpiredSessions_sweep.
  pose proof (sweep_db (expiredPending t1) (expiredPending t2) w1 i Hgone) as Hgone2.
  pose proof (sweep_consistent (expiredPending t1) (expiredPending t2) w1 Hw1) as Hw2.
  assert (Hfs2 : fs (sweep (expiredPending t1) (expiredPending t2) w1).2
                   !! getSessionDir i = fs w1 !! getSessionDir i).
  { apply sweep_keeps_dir; [exact Hw1|]. intros s' Hs'. congruence. }
  destruct (sweep_shape (expiredPending t1) (expiredPending t2) w1) as (Hr2 & _).
  cbv zeta in Hr2. fold (sweep (expiredPending t1) (expiredPending t2)) in Hr2.
  destruct (sweep (expiredPending t1) (expiredPending t2) w1) as [r2 w2].
  simpl in *. subst r2.
  rewrite cleanupCompletedSessions_sweep.
  assert (Hfs3 : fs (sweep (completedBefore (t3 - 86400000))
                       (completedBefore (t3 - 86400000)) w2).2
                   !! getSessionDir i = fs w2 !! getSessionDir i).
  { apply sweep_keeps_dir; [exact Hw2|]. intros s' Hs'. congruence. }
  destruct (sweep_shape (completedBefore (t3 - 86400000))
              (completedBefore (t3 - 86400000)) w2) as (Hr3 & _).
  cbv zeta in Hr3.
  fold (sweep (completedBefore (t3 - 86400000)) (completedBefore (t3 - 86400000)))
    in Hr3.
  destruct (sweep (completedBefore (t3 - 86400000))
              (completedBefore (t3 - 86400000)) w2) as [r3 w3].
  simpl in *. subst r3. simpl. congruence.
Qed.

Lemma cleanupExpiredSessions_orphans_witness :
  db (cleanupExpiredSessions 3601000 3601001 demoPartial).2 !! "s1" = None
  /\ fs (cleanupExpiredSessions 3601000 3601001 demoPartial).2 !! getSessionDir "s1"
     = fs demoPartial !! getSessionDir "s1"
  /\ forall t1 t2 t3,
       fs (triggerCleanup t1 t2 t3
             (cleanupExpiredSessions 3601000 3601001 demoPartial).2).2
         !! getSessionDir "s1"
       = fs demoPartial !! getSessionDir "s1".
Proof.
  apply (cleanupExpiredSessions_orphans demoPartial 3601000 3601001 "s1"
           (with_chunksReceived demoSession [0; 2])).
  - exact demoPartial_consistent.
  - vm_compute. reflexivity.
  - reflexivity.
  - simpl. lia.
Defined.
